(** * The rule-to-behavior compiler of the cody hooks

    A shallow embedding of
    [packages/cody/src/lib/hooks/utils/rule-engine/convert-rule-config-to-behavior.ts]
    and the properties its design document states about it.

    The compiler turns a list of rules into the text of a behaviour
    function body.  It writes into one shared array of lines ([lines]),
    which every translation function receives and extends with [push];
    here that array is threaded explicitly: every function takes the
    lines pushed so far and returns them with its result.  The unions
    [T | CodyResponse] that the source narrows with [isCodyError] are
    sums: the right alternative is the diagnostic. *)

From Stdlib Require Import String Ascii List Bool Arith NArith Lia.
From Stdlib Require Import Sorting.Permutation Sorting.Sorted.
Import ListNotations.
Open Scope string_scope.

(** ** Text helpers *)

(** The double quote and the line feed, written by their character
    codes. *)
Definition quote : string := String "034" "".
Definition nl : string := String "010" "".

(** [Array.prototype.push] of one element. *)
Definition push (lines : list string) (line : string) : list string :=
  (lines ++ [line])%list.

(** [Array.prototype.join]. *)
Definition join (sep : string) (lines : list string) : string :=
  String.concat sep lines.

(** [String.prototype.split] with a one-character separator: the pieces
    between the occurrences of the separator, the empty string giving one
    empty piece. *)
Fixpoint split (sep : ascii) (s : string) : list string :=
  match s with
  | EmptyString => [EmptyString]
  | String c rest =>
      if Ascii.eqb c sep then EmptyString :: split sep rest
      else match split sep rest with
           | piece :: pieces => String c piece :: pieces
           | [] => [String c EmptyString]
           end
  end.

(** ** Data model *)

(** Modelled from the spec: [CodyResponseType] and [CodyResponse] of
    [@proophboard/cody-types], whose declarations are imported by the
    source; a diagnostic carries a message, a severity and a details
    string. *)
Inductive CodyResponseType : Type :=
  Error | Info | Warning | Question | SyncRequired | Empty.

Record CodyResponse : Type := mkCodyResponse {
  cody : string;
  type : CodyResponseType;
  details : string
}.

(** Modelled from the spec: a node of the modelling graph, as far as the
    compiler reads it ([getName], [getType]); [NodeType] is the string
    enum of node kinds. *)
Definition NodeType : Type := string.
Definition NodeType_event : NodeType := "event".

Record Node : Type := mkNode {
  getName : string;
  getType : NodeType
}.

(** Modelled from the spec: the identifier forms derived from a raw name by
    [names] of [@event-engine/messaging/helpers]. *)
Record Names : Type := mkNames {
  className : string;
  propertyName : string
}.

(** The interface [Variable] of the source. *)
Record Variable_ : Type := mkVariable {
  name : string;
  initializer : string
}.

(** Modelled from the spec: the rule configuration of [./configuration].
    A [PropMapping] is a plain object from field name to expression; it is
    represented by its fields in the order they were declared, which is
    the order the object got them; the names of the fields of an object
    are distinct.  A mapping is a string or such an object. *)
Definition PropMapping : Type := list (string * string).

Inductive Mapping : Type :=
| MappingString (expr : string)
| MappingProps (props : PropMapping).

(** *** The order of [for ... in]

    [for ... in] does not visit the fields of an object in the order they
    were declared: the names that are array indices (the decimal numerals
    without a leading zero, below [2^32 - 1]) come first, by ascending
    value, and the other names follow in the order of declaration. *)
Definition digitValue (c : ascii) : option N :=
  let n := N_of_ascii c in
  if ((48 <=? n) && (n <=? 57))%N then Some (n - 48)%N else None.

Fixpoint decimalValue (acc : N) (s : string) : option N :=
  match s with
  | EmptyString => Some acc
  | String c rest =>
      match digitValue c with
      | Some d => decimalValue (10 * acc + d)%N rest
      | None => None
      end
  end.

Definition arrayIndex (name : string) : option N :=
  match name with
  | EmptyString => None
  | String "0" EmptyString => Some 0%N
  | String "0" _ => None
  | _ =>
      match decimalValue 0%N name with
      | Some n => if (n <? 4294967295)%N then Some n else None
      | None => None
      end
  end.

Fixpoint insertByIndex (i : N) (field : string * string)
    (sorted : list (N * (string * string))) : list (N * (string * string)) :=
  match sorted with
  | [] => [(i, field)]
  | (j, other) :: rest =>
      if (i <=? j)%N then (i, field) :: sorted
      else (j, other) :: insertByIndex i field rest
  end.

Fixpoint indexedFields (props : PropMapping)
    : list (N * (string * string)) :=
  match props with
  | [] => []
  | field :: rest =>
      match arrayIndex (fst field) with
      | Some i => insertByIndex i field (indexedFields rest)
      | None => indexedFields rest
      end
  end.

Definition namedFields (props : PropMapping) : PropMapping :=
  filter (fun field =>
            match arrayIndex (fst field) with
            | Some _ => false
            | None => true
            end)
         props.

Definition forIn (props : PropMapping) : PropMapping :=
  (map snd (indexedFields props) ++ namedFields props)%list.

(** Modelled from the spec: the rule objects of [./configuration].  A rule
    has its [rule] kind (any string at run time), the optional [if] and
    [if_not] expressions, its [then] part and the optional [stop] flag
    (absent reads as false).  The [then] part is told apart by shape, as
    [isRecordEvent] and [isExecuteRules] do: [{record: {event, mapping}}],
    [{execute: {rules}}], or anything else. *)
Inductive Rule : Type :=
| MkRule (rule : string) (if_ if_not : option string) (then_ : Then)
         (stop : bool)
with Then : Type :=
| ThenRecordEvent (event : string) (mapping : Mapping)
| ThenExecuteRules (rules : list Rule)
| ThenOther.

Definition Rule_rule (r : Rule) : string :=
  match r with MkRule k _ _ _ _ => k end.
Definition Rule_if (r : Rule) : option string :=
  match r with MkRule _ i _ _ _ => i end.
Definition Rule_if_not (r : Rule) : option string :=
  match r with MkRule _ _ i _ _ => i end.
Definition Rule_then (r : Rule) : Then :=
  match r with MkRule _ _ _ t _ => t end.
Definition Rule_stop (r : Rule) : bool :=
  match r with MkRule _ _ _ _ s => s end.

(** What a translation function returns: [true], nothing at all
    ([convertThenRecordEvent] falls off its end), or a diagnostic. *)
Inductive Outcome : Type :=
| ReturnsTrue
| ReturnsUndefined
| ReturnsError (e : CodyResponse).

(** Modelled from the spec: [isCodyError] of [@proophboard/cody-utils], the
    test that a result is the diagnostic alternative. *)
Definition isCodyError (res : Outcome) : bool :=
  match res with ReturnsError _ => true | _ => false end.

(** ** Vocabulary of the properties *)

(** [occursIn x s]: the text [x] occurs in [s]. *)
Definition occursIn (x s : string) : Prop :=
  exists before after, s = before ++ x ++ after.

(** A character occurs in a string. *)
Definition hasChar (c : ascii) (s : string) : Prop :=
  In c (list_ascii_of_string s).

(** Concatenation of texts, in order. *)
Definition flatten (texts : list string) : string :=
  fold_right append "" texts.

(** The diagnostic of an outcome, if it is one. *)
Definition outcomeError (res : Outcome) : option CodyResponse :=
  match res with ReturnsError e => Some e | _ => None end.

(** The first diagnostic a list gives under [f], in list order. *)
Section FirstOf.
Variable f : Rule -> option CodyResponse.
Fixpoint firstOf (rules : list Rule) : option CodyResponse :=
  match rules with
  | [] => None
  | r :: rest =>
      match f r with
      | Some e => Some e
      | None => firstOf rest
      end
  end.
End FirstOf.

(** The kinds a details text lists: the items, separated by commas, that
    follow its colon. *)
Fixpoint afterColon (s : string) : string :=
  match s with
  | EmptyString => EmptyString
  | String c rest => if Ascii.eqb c ":" then rest else afterColon rest
  end.

Fixpoint trimLeft (s : string) : string :=
  match s with
  | String " " rest => trimLeft rest
  | _ => s
  end.

Definition listedKinds (details : string) : list string :=
  map trimLeft (split "," (afterColon details)).

(** Induction on rules that reaches the rules nested in an [execute]
    action. *)
Section RuleInduction.
Variable P : Rule -> Prop.
Hypothesis record_case : forall kind i n event mapping stop,
  P (MkRule kind i n (ThenRecordEvent event mapping) stop).
Hypothesis execute_case : forall kind i n rules stop,
  Forall P rules -> P (MkRule kind i n (ThenExecuteRules rules) stop).
Hypothesis other_case : forall kind i n stop,
  P (MkRule kind i n ThenOther stop).

Fixpoint Rule_nested_ind (rule : Rule) : P rule :=
  match rule with
  | MkRule kind i n th stop =>
      match th with
      | ThenRecordEvent event mapping => record_case kind i n event mapping stop
      | ThenExecuteRules rules =>
          execute_case kind i n rules stop
            ((fix all (rs : list Rule) : Forall P rs :=
                match rs with
                | [] => Forall_nil P
                | r :: rest => Forall_cons r (Rule_nested_ind r) (all rest)
                end) rules)
      | ThenOther => other_case kind i n stop
      end
  end.
End RuleInduction.

(** The number of lines a rule adds when it translates: one per record
    action, an opening and a closing line per conditional, one more for a
    stopping conditional. *)
Fixpoint lineCount (rule : Rule) : nat :=
  match rule with
  | MkRule kind i n th stop =>
      let action :=
        match th with
        | ThenRecordEvent _ _ => 1
        | ThenExecuteRules rules => list_sum (map lineCount rules)
        | ThenOther => 0
        end in
      if kind =? "always" then action
      else if kind =? "condition"
      then 1 + action + (if stop then 1 else 0) + 1
      else 0
  end.

(** The number of lines of the action of a rule. *)
Definition actionCount (rule : Rule) : nat :=
  match Rule_then rule with
  | ThenRecordEvent _ _ => 1
  | ThenExecuteRules rules => list_sum (map lineCount rules)
  | ThenOther => 0
  end.

(** A line starts with an indentation. *)
Definition startsWith (indent line : string) : Prop :=
  exists rest, line = indent ++ rest.

(** ** Sample collaborators

    A small graph used to run the compiler on concrete inputs: the
    aggregate [Cart] of service [Shop] with the declared event targets
    [item added] and [CartEmptied]; an identifier deriver that drops
    spaces and sets the case of the first letter. *)
Definition upper (c : ascii) : ascii :=
  let n := nat_of_ascii c in
  if ((97 <=? n) && (n <=? 122))%nat then ascii_of_nat (n - 32) else c.

Definition lower (c : ascii) : ascii :=
  let n := nat_of_ascii c in
  if ((65 <=? n) && (n <=? 90))%nat then ascii_of_nat (n + 32) else c.

Fixpoint camel (up : bool) (s : string) : string :=
  match s with
  | EmptyString => EmptyString
  | String " " rest => camel true rest
  | String c rest => String (if up then upper c else c) (camel false rest)
  end.

Definition sampleNames (raw : string) : Names :=
  {| className := camel true raw;
     propertyName :=
       match camel true raw with
       | String c rest => String (lower c) rest
       | EmptyString => EmptyString
       end |}.

Definition sampleAggregate : Node := mkNode "Cart" "aggregate".

Definition sampleService (node : Node) (ctx : unit)
    : string + CodyResponse := inl "Shop".

Definition serviceUnknown : CodyResponse :=
  {| cody := "I cannot find the service of that node.";
     type := Error;
     details := "Please put the node into a bounded context." |}.

Definition failingService (node : Node) (ctx : unit)
    : string + CodyResponse := inr serviceUnknown.

Definition sampleTargets (node : Node) (type : NodeType) (includeChildren : bool)
    : list Node + CodyResponse :=
  inl [mkNode "item added" "event"; mkNode "CartEmptied" "event"].

Definition noTargets (node : Node) (type : NodeType) (includeChildren : bool)
    : list Node + CodyResponse := inl [].

Definition lookupFailed : CodyResponse :=
  {| cody := "I cannot read the targets of that node.";
     type := Error;
     details := "Please sync the board and try again." |}.

Definition failingTargets (node : Node) (type : NodeType)
    (includeChildren : bool) : list Node + CodyResponse := inr lookupFailed.

Definition sampleStringify (rule : Rule) : string :=
  "{rule:" ++ Rule_rule rule ++ "}".

(** ** The compiler *)

Definition wrapExpression (expr : string) : string :=
  "await jexl.eval(" ++ quote ++ expr ++ quote ++ ", ctx)".

Section Compiler.

(** The collaborators the source imports: the context type, the
    identifier deriver, the service resolver, the declared-targets
    lookup, and [JSON.stringify] on rules. *)
Variable Context : Type.
Variable names : string -> Names.
Variable detectService : Node -> Context -> string + CodyResponse.
Variable getTargetsOfType :
  Node -> NodeType -> bool -> list Node + CodyResponse.
Variable JSON_stringify : Rule -> string.

Definition convertMapping (node : Node) (ctx : Context) (mapping : Mapping)
    (rule : Rule) (indent : string) : string + CodyResponse :=
  match mapping with
  | MappingString expr => inl (wrapExpression expr)
  | MappingProps props =>
      let propMap := "{" ++ nl in
      let propMap :=
        fold_left
          (fun propMap '(propName, expr) =>
             propMap ++ (indent ++ "  " ++ quote ++ propName ++ quote
                         ++ ": " ++ wrapExpression expr ++ "," ++ nl))
          (forIn props) propMap in
      let propMap := propMap ++ (indent ++ "}") in
      inl propMap
  end.

Definition dotInEventName (node : Node) (service : string) (rule : Rule)
    : CodyResponse :=
  {| cody := "Please don't use a dot in the event name of a record:event rule. I found one in the rule: "
             ++ JSON_stringify rule ++ " of aggregate " ++ quote
             ++ getName node ++ quote;
     type := Error;
     details := "You don't have to provide the full event name including service and aggregate. I'm using service "
                ++ quote ++ service ++ quote ++ " and aggregate name: "
                ++ quote ++ getName node ++ quote ++ " for that event." |}.

Definition eventNotKnown (node : Node) (event : string) (rule : Rule)
    : CodyResponse :=
  {| cody := "The event " ++ quote ++ event ++ quote
             ++ " specified in the rule: " ++ JSON_stringify rule
             ++ " of aggregate " ++ quote ++ getName node ++ quote
             ++ " is not known for that aggregate";
     type := Error;
     details := "An aggregate can only record events that are connected to it with an arrow pointing from the aggregate to the event." |}.

(** The [forEach] over the declared targets that sets [eventExists]. *)
Definition eventExistsIn (events : list Node) (eventNames : Names) : bool :=
  fold_left
    (fun eventExists evt =>
       if className (names (getName evt)) =? className eventNames
       then true else eventExists)
    events false.

Definition convertThenRecordEvent (node : Node) (ctx : Context)
    (event : string) (mapping : Mapping) (rule : Rule)
    (lines : list string) (indent : string) : Outcome * list string :=
  let aggregateNames := names (getName node) in
  match detectService node ctx with
  | inr e => (ReturnsError e, lines)
  | inl service =>
      let eventNameParts := split "." event in
      let eventNames := names event in
      if (1 <? List.length eventNameParts)%nat
      then (ReturnsError (dotInEventName node service rule), lines)
      else
        match getTargetsOfType node NodeType_event true with
        | inr e => (ReturnsError e, lines)
        | inl events =>
            if negb (eventExistsIn events eventNames)
            then (ReturnsError (eventNotKnown node event rule), lines)
            else
              match convertMapping node ctx mapping rule indent with
              | inr e => (ReturnsError e, lines)
              | inl mapping =>
                  (ReturnsUndefined,
                   push lines (indent ++ "yield " ++ propertyName eventNames
                               ++ "(" ++ mapping ++ ");"))
              end
        end
  end.

Definition unknownThen (rule : Rule) : CodyResponse :=
  {| cody := "I don't know the " ++ quote ++ "then" ++ quote
             ++ " part of that rule: " ++ JSON_stringify rule ++ ".";
     type := Error;
     details := "Looks like a typo on your side. I can only perform the actions: record: event, throw: error, assign: variable, trigger: command, perform: query, execute: rules" |}.

Definition unknownRuleType (rule : Rule) : CodyResponse :=
  {| cody := "I don't know how to handle a rule of type " ++ quote
             ++ Rule_rule rule ++ quote ++ ".";
     type := Error;
     details := "Looks like a typo on your side. I can handle the following rule types: always, condition, validate" |}.

Definition noCondition (node : Node) (rule : Rule) : CodyResponse :=
  {| cody := "I don't know how to handle a condition rule that neither has an "
             ++ quote ++ "if" ++ quote ++ " nor a " ++ quote ++ "if_not"
             ++ quote ++ " condition defined: " ++ quote
             ++ JSON_stringify rule ++ quote ++ ".";
     type := Error;
     details := "Looks like a mistake on your side. Please check the rules of "
                ++ getType node ++ ": " ++ quote ++ getName node ++ quote |}.

(** The [if] / [else if] / [else] of [convertConditionRule] on
    [isIfConditionRule] and [isIfNotConditionRule]: the opening text
    [ifCondition] and the expression [expr], or neither. *)
Definition conditionOf (rule : Rule) : option (string * string) :=
  match Rule_if rule, Rule_if_not rule with
  | Some expr, _ => Some ("if (", expr)
  | None, Some expr => Some ("if (!", expr)
  | None, None => None
  end.

(** The translation functions call each other in a cycle that goes
    through the rules nested in an [execute] action.  Their bodies are
    given first with the recursive call to [convertRule] as a parameter;
    the recursion is closed below. *)
Section Bodies.

Variable convertRule :
  Node -> Context -> Rule -> list string -> string
  -> Outcome * list string.

Fixpoint convertThenExecuteRules_body (node : Node) (ctx : Context)
    (rules : list Rule) (rule : Rule) (lines : list string)
    (indent : string) : Outcome * list string :=
  match rules with
  | [] => (ReturnsTrue, lines)
  | r :: rest =>
      let '(success, lines) := convertRule node ctx r lines indent in
      if isCodyError success then (success, lines)
      else convertThenExecuteRules_body node ctx rest rule lines indent
  end.

Definition convertThen_body (node : Node) (ctx : Context) (rule : Rule)
    (lines : list string) (indent : string) : Outcome * list string :=
  match Rule_then rule with
  | ThenRecordEvent event mapping =>
      convertThenRecordEvent node ctx event mapping rule lines indent
  | ThenExecuteRules rules =>
      convertThenExecuteRules_body node ctx rules rule lines indent
  | ThenOther => (ReturnsError (unknownThen rule), lines)
  end.

Definition convertAlwaysRule_body (aggregate : Node) (ctx : Context)
    (rule : Rule) (lines : list string) (indent : string)
    : Outcome * list string :=
  convertThen_body aggregate ctx rule lines indent.

Definition convertConditionRule_body (node : Node) (ctx : Context)
    (rule : Rule) (lines : list string) (indent : string)
    : Outcome * list string :=
  match conditionOf rule with
  | None => (ReturnsError (noCondition node rule), lines)
  | Some (ifCondition, expr) =>
      let lines :=
        push lines (indent ++ ifCondition ++ "(" ++ wrapExpression expr
                    ++ ")) {") in
      let '(then_, lines) :=
        convertThen_body node ctx rule lines (indent ++ "  ") in
      if isCodyError then_ then (then_, lines)
      else
        let lines :=
          if Rule_stop rule then push lines (indent ++ "  return;")
          else lines in
        let lines := push lines (indent ++ "}") in
        (ReturnsTrue, lines)
  end.

Definition convertRule_body (aggregate : Node) (ctx : Context)
    (rule : Rule) (lines : list string) (indent : string)
    : Outcome * list string :=
  if Rule_rule rule =? "always"
  then convertAlwaysRule_body aggregate ctx rule lines indent
  else if Rule_rule rule =? "condition"
  then convertConditionRule_body aggregate ctx rule lines indent
  else (ReturnsError (unknownRuleType rule), lines).

End Bodies.

Fixpoint convertRule (aggregate : Node) (ctx : Context) (rule : Rule)
    (lines : list string) (indent : string) {struct rule}
    : Outcome * list string :=
  convertRule_body convertRule aggregate ctx rule lines indent.

Definition convertThenExecuteRules := convertThenExecuteRules_body convertRule.
Definition convertThen := convertThen_body convertRule.
Definition convertAlwaysRule := convertAlwaysRule_body convertRule.
Definition convertConditionRule := convertConditionRule_body convertRule.

(** The loop of the entry point over the top-level rules: an empty line,
    then the rule; the first diagnostic ends it. *)
Fixpoint forRules (aggregate : Node) (ctx : Context) (rules : list Rule)
    (lines : list string) (indent : string)
    : list string + CodyResponse :=
  match rules with
  | [] => inl lines
  | rule :: rest =>
      let lines := push lines "" in
      match convertRule aggregate ctx rule lines indent with
      | (ReturnsError res, _) => inr res
      | (_, lines) => forRules aggregate ctx rest lines indent
      end
  end.

(** The [forEach] over the initial variables. *)
Definition declareVariables (initialVariables : list Variable_)
    (lines : list string) (indent : string) : list string :=
  fold_left
    (fun lines variable =>
       push lines (indent ++ "ctx['" ++ name variable ++ "'] = "
                   ++ initializer variable ++ ";"))
    initialVariables lines.

(** The entry point.  [indent] is the parameter the source defaults to
    two spaces. *)
Definition convertRuleConfigToAggregateBehavior (aggregate : Node)
    (ctx : Context) (rules : list Rule) (initialVariables : list Variable_)
    (indent : string) : string + CodyResponse :=
  if (List.length rules =? 0)%nat then inl ""
  else
    let lines := [] in
    let lines := push lines (indent ++ "const ctx: any = {};") in
    let lines := declareVariables initialVariables lines indent in
    match forRules aggregate ctx rules lines indent with
    | inr res => inr res
    | inl lines =>
        let lines := push lines "" in
        inl (join nl lines)
    end.

Definition defaultIndent : string := "  ".

(** ** The first diagnostic, read off the rules alone

    What the design document calls the first error in list and recursion
    order, written without the lines: a rule is checked, then its action;
    a record action checks the service, the dot, the lookup and the
    declared targets; an execute action checks its rules in order. *)
Definition recordEventError (node : Node) (ctx : Context)
    (event : string) (rule : Rule) : option CodyResponse :=
  match detectService node ctx with
  | inr e => Some e
  | inl service =>
      if (1 <? List.length (split "." event))%nat
      then Some (dotInEventName node service rule)
      else
        match getTargetsOfType node NodeType_event true with
        | inr e => Some e
        | inl events =>
            if eventExistsIn events (names event) then None
            else Some (eventNotKnown node event rule)
        end
  end.

Fixpoint firstError (node : Node) (ctx : Context) (rule : Rule)
    : option CodyResponse :=
  match rule with
  | MkRule kind i n th stop =>
      let thenError :=
        match th with
        | ThenRecordEvent event _ => recordEventError node ctx event rule
        | ThenExecuteRules rules => firstOf (firstError node ctx) rules
        | ThenOther => Some (unknownThen rule)
        end in
      if kind =? "always" then thenError
      else if kind =? "condition" then
        match i, n with
        | None, None => Some (noCondition node rule)
        | _, _ => thenError
        end
      else Some (unknownRuleType rule)
  end.

Definition thenError (node : Node) (ctx : Context) (rule : Rule)
    : option CodyResponse :=
  match Rule_then rule with
  | ThenRecordEvent event _ => recordEventError node ctx event rule
  | ThenExecuteRules rules => firstOf (firstError node ctx) rules
  | ThenOther => Some (unknownThen rule)
  end.

(** The lines a rule, or the action of a rule, adds at an indentation. *)
Definition translation (node : Node) (ctx : Context) (indent : string)
    (rule : Rule) : list string :=
  snd (convertRule node ctx rule [] indent).

Definition thenTranslation (node : Node) (ctx : Context) (indent : string)
    (rule : Rule) : list string :=
  snd (convertThen node ctx rule [] indent).

(** A rule translates: its outcome is not a diagnostic. *)
Definition translates (node : Node) (ctx : Context) (indent : string)
    (rule : Rule) : Prop :=
  isCodyError (fst (convertRule node ctx rule [] indent)) = false.

(** The assignment line of an initial variable and the entry of a field
    of an object mapping. *)
Definition assignment (indent : string) (variable : Variable_) : string :=
  indent ++ "ctx['" ++ name variable ++ "'] = " ++ initializer variable
  ++ ";".

Definition payloadEntry (indent : string) (field : string * string)
    : string :=
  indent ++ "  " ++ quote ++ fst field ++ quote ++ ": "
  ++ wrapExpression (snd field) ++ "," ++ nl.

(** The opening line of a conditional. *)
Definition conditionHeader (indent ifCondition expr : string) : string :=
  indent ++ ifCondition ++ "(" ++ wrapExpression expr ++ ")) {".

(** A rule whose action is reached: an [always] rule, or a [condition]
    rule with a condition. *)
Definition reachesThen (rule : Rule) : Prop :=
  Rule_rule rule = "always"
  \/ (Rule_rule rule = "condition"
      /\ (Rule_if rule <> None \/ Rule_if_not rule <> None)).

(** A rule is reached within a rule of the top-level list: it is that
    rule, or it stands in the execute action of a rule that is reached
    within it and whose action is reached, after nested rules that all
    translate (whether a rule translates does not depend on the
    indentation). *)
Inductive reachedWithin (node : Node) (ctx : Context) (indent : string)
    (rule : Rule) : Rule -> Prop :=
| reached_itself : reachedWithin node ctx indent rule rule
| reached_nested (outer : Rule) (pre : list Rule) (inner : Rule)
    (post : list Rule) :
    reachesThen outer ->
    Rule_then outer = ThenExecuteRules (pre ++ inner :: post) ->
    (forall p, In p pre -> translates node ctx indent p) ->
    reachedWithin node ctx indent rule inner ->
    reachedWithin node ctx indent rule outer.

(** A translation step only appends: what it does to the lines pushed
    so far is to add, after them, the lines it adds to none. *)
Definition appendsOnly (step : list string -> Outcome * list string)
    : Prop :=
  forall lines, step lines = (fst (step []), (lines ++ snd (step []))%list).

(** ** Text lemmas *)

Lemma append_assoc (a b c : string) : (a ++ b) ++ c = a ++ b ++ c.
Proof. induction a as [|x a IH]; simpl; [reflexivity | now rewrite IH]. Qed.

Lemma append_empty_r (a : string) : a ++ "" = a.
Proof. induction a as [|x a IH]; simpl; [reflexivity | now rewrite IH]. Qed.

Lemma append_cancel_l (a b c : string) : a ++ b = a ++ c -> b = c.
Proof.
  induction a as [|x a IH]; simpl; intros H; [exact H|].
  injection H as H. auto.
Qed.

Lemma length_append (a b : string) :
  String.length (a ++ b) = String.length a + String.length b.
Proof. induction a as [|x a IH]; simpl; [reflexivity | now rewrite IH]. Qed.

Lemma occursIn_middle (a x b : string) : occursIn x (a ++ x ++ b).
Proof. now exists a, b. Qed.

Lemma occursIn_append_l (a x s : string) : occursIn x s -> occursIn x (a ++ s).
Proof.
  intros (before & after & ->). exists (a ++ before), after.
  now rewrite append_assoc.
Qed.

Lemma split_not_nil (sep : ascii) (s : string) : split sep s <> [].
Proof.
  induction s as [|c s IH]; simpl; [discriminate|].
  destruct (Ascii.eqb c sep); [discriminate|].
  destruct (split sep s); discriminate.
Qed.

(** [split] gives more than one piece exactly when the separator
    occurs. *)
Lemma split_pieces (sep : ascii) (s : string) :
  (1 <? List.length (split sep s))%nat = true <-> hasChar sep s.
Proof.
  unfold hasChar. induction s as [|c s IH]; simpl.
  - split; [discriminate | contradiction].
  - destruct (Ascii.eqb_spec c sep) as [->|Hne].
    + split; [now left|]. intros _.
      pose proof (split_not_nil sep s) as Hnil.
      destruct (split sep s); [contradiction | reflexivity].
    + pose proof (split_not_nil sep s) as Hnil.
      destruct (split sep s) as [|piece pieces]; [contradiction|].
      simpl in *. rewrite IH. split; [now right|].
      intros [Heq|Hin]; [contradiction | exact Hin].
Qed.

Lemma split_one_piece (sep : ascii) (s : string) :
  (1 <? List.length (split sep s))%nat = false <-> ~ hasChar sep s.
Proof.
  rewrite <- split_pieces.
  destruct (1 <? List.length (split sep s))%nat; split; congruence.
Qed.

(** ** Unfolding the recursion *)

Lemma convertRule_eq node ctx rule lines indent :
  convertRule node ctx rule lines indent
  = convertRule_body convertRule node ctx rule lines indent.
Proof. destruct rule; reflexivity. Qed.

Lemma convertRule_always node ctx rule lines indent :
  Rule_rule rule = "always" ->
  convertRule node ctx rule lines indent
  = convertThen node ctx rule lines indent.
Proof.
  intros H. rewrite convertRule_eq. unfold convertRule_body.
  now rewrite H.
Qed.

Lemma convertRule_condition node ctx rule lines indent :
  Rule_rule rule = "condition" ->
  convertRule node ctx rule lines indent
  = convertConditionRule node ctx rule lines indent.
Proof.
  intros H. rewrite convertRule_eq. unfold convertRule_body.
  now rewrite H.
Qed.

Lemma convertRule_unknown node ctx rule lines indent :
  Rule_rule rule <> "always" -> Rule_rule rule <> "condition" ->
  convertRule node ctx rule lines indent
  = (ReturnsError (unknownRuleType rule), lines).
Proof.
  intros Ha Hc. rewrite convertRule_eq. unfold convertRule_body.
  apply String.eqb_neq in Ha, Hc. now rewrite Ha, Hc.
Qed.

(** The mapping translation has no failing path. *)
Lemma convertMapping_succeeds node ctx mapping rule indent :
  exists text, convertMapping node ctx mapping rule indent = inl text.
Proof. destruct mapping; simpl; eauto. Qed.

(** ** The declared-targets check *)

Lemma eventExistsIn_fold events eventNames acc :
  fold_left
    (fun eventExists evt =>
       if className (names (getName evt)) =? className eventNames
       then true else eventExists)
    events acc
  = acc || eventExistsIn events eventNames.
Proof.
  unfold eventExistsIn. revert acc.
  induction events as [|evt events IH]; intros acc; simpl.
  - now rewrite orb_false_r.
  - destruct (className (names (getName evt)) =? className eventNames).
    + rewrite (IH true). simpl. now rewrite orb_true_r.
    + apply IH.
Qed.

Lemma eventExistsIn_spec events eventNames :
  eventExistsIn events eventNames = true
  <-> exists evt, In evt events
      /\ className (names (getName evt)) = className eventNames.
Proof.
  induction events as [|evt events IH].
  - simpl. split; [discriminate | intros (? & [] & _)].
  - unfold eventExistsIn. simpl. rewrite eventExistsIn_fold.
    destruct (String.eqb_spec (className (names (getName evt)))
                (className eventNames)) as [Heq|Hne]; simpl.
    + split; [|reflexivity]. intros _. exists evt. split; [now left | exact Heq].
    + rewrite IH. split.
      * intros (e & Hin & He). exists e. split; [now right | exact He].
      * intros (e & [->|Hin] & He); [contradiction|]. now exists e.
Qed.

Lemma eventExistsIn_none events eventNames :
  eventExistsIn events eventNames = false
  <-> forall evt, In evt events
      -> className (names (getName evt)) <> className eventNames.
Proof.
  split.
  - intros H evt Hin Heq.
    assert (eventExistsIn events eventNames = true) as Ht
      by (apply eventExistsIn_spec; now exists evt).
    congruence.
  - intros H. destruct (eventExistsIn events eventNames) eqn:E; [|reflexivity].
    apply eventExistsIn_spec in E as (evt & Hin & Heq).
    now elim (H evt Hin).
Qed.

(** ** Translation steps only append *)

Lemma convertThenRecordEvent_appendsOnly node ctx event mapping rule indent :
  appendsOnly (fun lines =>
    convertThenRecordEvent node ctx event mapping rule lines indent).
Proof.
  intros lines. unfold convertThenRecordEvent.
  destruct (detectService node ctx); [|now rewrite app_nil_r].
  destruct (1 <? _)%nat; [now rewrite app_nil_r|].
  destruct (getTargetsOfType node NodeType_event true);
    [|now rewrite app_nil_r].
  destruct (negb _); [now rewrite app_nil_r|].
  destruct (convertMapping node ctx mapping rule indent);
    [reflexivity | now rewrite app_nil_r].
Qed.

Lemma convertThenExecuteRules_appendsOnly node ctx rules rule :
  Forall (fun r => forall indent,
            appendsOnly (fun lines => convertRule node ctx r lines indent))
         rules ->
  forall indent,
    appendsOnly (fun lines =>
      convertThenExecuteRules node ctx rules rule lines indent).
Proof.
  unfold convertThenExecuteRules.
  induction 1 as [|r rest Hr _ IH]; intros indent lines; simpl.
  - now rewrite app_nil_r.
  - rewrite (Hr indent lines).
    destruct (convertRule node ctx r [] indent) as [res added] eqn:E.
    simpl. destruct (isCodyError res); [reflexivity|].
    rewrite (IH indent (lines ++ added)%list), (IH indent added).
    simpl. now rewrite app_assoc.
Qed.

Lemma convertThen_appendsOnly node ctx rule :
  (forall rules, Rule_then rule = ThenExecuteRules rules ->
     Forall (fun r => forall indent,
               appendsOnly (fun lines => convertRule node ctx r lines indent))
            rules) ->
  forall indent,
    appendsOnly (fun lines => convertThen node ctx rule lines indent).
Proof.
  intros Hnested indent lines. unfold convertThen, convertThen_body.
  destruct (Rule_then rule) as [event mapping|rules|] eqn:E.
  - apply (convertThenRecordEvent_appendsOnly node ctx event mapping rule
             indent lines).
  - apply (convertThenExecuteRules_appendsOnly node ctx rules rule
             (Hnested rules eq_refl) indent lines).
  - simpl. now rewrite app_nil_r.
Qed.

Lemma convertConditionRule_appendsOnly node ctx rule :
  (forall indent,
     appendsOnly (fun lines => convertThen node ctx rule lines indent)) ->
  forall indent,
    appendsOnly (fun lines => convertConditionRule node ctx rule lines indent).
Proof.
  intros Hthen indent lines.
  unfold convertConditionRule, convertConditionRule_body.
  fold (convertThen node ctx rule).
  destruct (conditionOf rule) as [[ifCondition expr]|];
    [|now rewrite app_nil_r].
  unfold push.
  rewrite (Hthen (indent ++ "  ") (lines ++ [_])%list),
          (Hthen (indent ++ "  ") ([] ++ [_])%list).
  simpl.
  destruct (isCodyError (fst (convertThen node ctx rule [] (indent ++ "  "))));
    simpl; [now rewrite <- app_assoc|].
  destruct (Rule_stop rule); simpl; f_equal;
    now rewrite <- !app_assoc.
Qed.

Lemma convertRule_appendsOnly_of_then node ctx rule :
  (forall indent,
     appendsOnly (fun lines => convertThen node ctx rule lines indent)) ->
  forall indent,
    appendsOnly (fun lines => convertRule node ctx rule lines indent).
Proof.
  intros Hthen indent lines. rewrite !convertRule_eq.
  unfold convertRule_body, convertAlwaysRule_body.
  fold (convertThen node ctx) (convertConditionRule node ctx).
  destruct (Rule_rule rule =? "always"); [apply (Hthen indent lines)|].
  destruct (Rule_rule rule =? "condition").
  - apply (convertConditionRule_appendsOnly node ctx rule Hthen indent lines).
  - simpl. now rewrite app_nil_r.
Qed.

Theorem convertRule_appendsOnly node ctx rule :
  forall indent,
    appendsOnly (fun lines => convertRule node ctx rule lines indent).
Proof.
  induction rule as [kind i n event mapping stop
                    |kind i n rules stop IH
                    |kind i n stop] using Rule_nested_ind;
    apply convertRule_appendsOnly_of_then;
    apply convertThen_appendsOnly; simpl; intros rs Hrs;
    first [discriminate | injection Hrs as <-; exact IH].
Qed.

Corollary convertRule_lines node ctx rule lines indent :
  convertRule node ctx rule lines indent
  = (fst (convertRule node ctx rule [] indent),
     (lines ++ translation node ctx indent rule)%list).
Proof. apply (convertRule_appendsOnly node ctx rule indent lines). Qed.

Corollary convertThen_lines node ctx rule lines indent :
  convertThen node ctx rule lines indent
  = (fst (convertThen node ctx rule [] indent),
     (lines ++ thenTranslation node ctx indent rule)%list).
Proof.
  apply (convertThen_appendsOnly node ctx rule); intros rules _.
  apply Forall_forall. intros r _. apply convertRule_appendsOnly.
Qed.

(** ** The diagnostic does not depend on the lines *)

Lemma firstError_eq node ctx rule :
  firstError node ctx rule
  = if Rule_rule rule =? "always" then thenError node ctx rule
    else if Rule_rule rule =? "condition" then
      match Rule_if rule, Rule_if_not rule with
      | None, None => Some (noCondition node rule)
      | _, _ => thenError node ctx rule
      end
    else Some (unknownRuleType rule).
Proof. destruct rule; reflexivity. Qed.

Lemma convertThenRecordEvent_error node ctx event mapping rule lines indent :
  outcomeError
    (fst (convertThenRecordEvent node ctx event mapping rule lines indent))
  = recordEventError node ctx event rule.
Proof.
  unfold convertThenRecordEvent, recordEventError.
  destruct (detectService node ctx); [|reflexivity].
  destruct (1 <? _)%nat; [reflexivity|].
  destruct (getTargetsOfType node NodeType_event true); [|reflexivity].
  destruct (eventExistsIn _ _); [|reflexivity]. simpl.
  destruct (convertMapping_succeeds node ctx mapping rule indent) as [t ->].
  reflexivity.
Qed.

Lemma isCodyError_outcomeError res :
  isCodyError res = match outcomeError res with Some _ => true | None => false end.
Proof. now destruct res. Qed.

Lemma outcomeError_some res e :
  outcomeError res = Some e -> res = ReturnsError e.
Proof. destruct res; simpl; congruence. Qed.

Lemma convertThenExecuteRules_error node ctx rules rule :
  Forall (fun r => forall lines indent,
            outcomeError (fst (convertRule node ctx r lines indent))
            = firstError node ctx r)
         rules ->
  forall lines indent,
    outcomeError
      (fst (convertThenExecuteRules node ctx rules rule lines indent))
    = firstOf (firstError node ctx) rules.
Proof.
  unfold convertThenExecuteRules.
  induction 1 as [|r rest Hr _ IH]; intros lines indent; simpl;
    [reflexivity|].
  specialize (Hr lines indent).
  destruct (convertRule node ctx r lines indent) as [res lines'].
  simpl in Hr. rewrite isCodyError_outcomeError, Hr.
  destruct (firstError node ctx r) as [e|]; [exact Hr | apply IH].
Qed.

Lemma convertThen_error node ctx rule :
  (forall rules, Rule_then rule = ThenExecuteRules rules ->
     Forall (fun r => forall lines indent,
               outcomeError (fst (convertRule node ctx r lines indent))
               = firstError node ctx r)
            rules) ->
  forall lines indent,
    outcomeError (fst (convertThen node ctx rule lines indent))
    = thenError node ctx rule.
Proof.
  intros Hnested lines indent.
  unfold convertThen, convertThen_body, thenError.
  destruct (Rule_then rule) as [event mapping|rules|].
  - apply convertThenRecordEvent_error.
  - apply (convertThenExecuteRules_error node ctx rules rule
             (Hnested rules eq_refl)).
  - reflexivity.
Qed.

Lemma convertConditionRule_error node ctx rule lines indent :
  (forall lines indent,
     outcomeError (fst (convertThen node ctx rule lines indent))
     = thenError node ctx rule) ->
  outcomeError (fst (convertConditionRule node ctx rule lines indent))
  = match Rule_if rule, Rule_if_not rule with
    | None, None => Some (noCondition node rule)
    | _, _ => thenError node ctx rule
    end.
Proof.
  intros Hthen. unfold convertConditionRule, convertConditionRule_body.
  fold (convertThen node ctx rule).
  assert (forall header,
    outcomeError
      (fst (let '(then_, lines0) :=
              convertThen node ctx rule (push lines header) (indent ++ "  ") in
            if isCodyError then_ then (then_, lines0)
            else
              (ReturnsTrue,
               push (if Rule_stop rule
                     then push lines0 (indent ++ "  return;") else lines0)
                    (indent ++ "}"))))
    = thenError node ctx rule) as Hbody.
  { intros header.
    specialize (Hthen (push lines header) (indent ++ "  ")).
    destruct (convertThen node ctx rule (push lines header) (indent ++ "  "))
      as [res lines0].
    simpl in Hthen. rewrite isCodyError_outcomeError, Hthen.
    destruct (thenError node ctx rule); [exact Hthen | reflexivity]. }
  unfold conditionOf.
  destruct (Rule_if rule), (Rule_if_not rule); try apply Hbody.
  reflexivity.
Qed.

Theorem convertRule_error node ctx rule :
  forall lines indent,
    outcomeError (fst (convertRule node ctx rule lines indent))
    = firstError node ctx rule.
Proof.
  assert (forall r,
    (forall lines indent,
       outcomeError (fst (convertThen node ctx r lines indent))
       = thenError node ctx r) ->
    forall lines indent,
      outcomeError (fst (convertRule node ctx r lines indent))
      = firstError node ctx r) as Hrule.
  { intros r Hthen lines indent. rewrite convertRule_eq, firstError_eq.
    unfold convertRule_body, convertAlwaysRule_body.
    fold (convertThen node ctx) (convertConditionRule node ctx).
    destruct (Rule_rule r =? "always"); [apply Hthen|].
    destruct (Rule_rule r =? "condition"); [|reflexivity].
    now apply convertConditionRule_error. }
  induction rule as [kind i n event mapping stop
                    |kind i n rules stop IH
                    |kind i n stop] using Rule_nested_ind;
    apply Hrule; apply convertThen_error; simpl; intros rs Hrs;
    first [discriminate | injection Hrs as <-; exact IH].
Qed.

Lemma translates_firstError node ctx indent rule :
  translates node ctx indent rule <-> firstError node ctx rule = None.
Proof.
  unfold translates.
  rewrite isCodyError_outcomeError, convertRule_error.
  destruct (firstError node ctx rule); split; congruence.
Qed.

Lemma firstOf_app (f : Rule -> option CodyResponse) pre post :
  firstOf f (pre ++ post)
  = match firstOf f pre with Some e => Some e | None => firstOf f post end.
Proof.
  induction pre as [|r pre IH]; simpl; [reflexivity|].
  destruct (f r); [reflexivity | exact IH].
Qed.

Lemma firstOf_none (f : Rule -> option CodyResponse) rules :
  firstOf f rules = None <-> forall r, In r rules -> f r = None.
Proof.
  induction rules as [|r rules IH]; simpl.
  - split; [intros _ r [] | reflexivity].
  - destruct (f r) eqn:E.
    + split; [discriminate|]. intros H.
      rewrite <- E. apply H. now left.
    + rewrite IH. split.
      * intros H r' [<-|Hin]; [exact E | now apply H].
      * intros H r' Hin. apply H. now right.
Qed.

(** ** The entry point, in one equation *)

Lemma convertThenExecuteRules_spec node ctx rules rule lines indent :
  firstOf (firstError node ctx) rules = None ->
  convertThenExecuteRules node ctx rules rule lines indent
  = (ReturnsTrue,
     (lines ++ concat (map (translation node ctx indent) rules))%list).
Proof.
  unfold convertThenExecuteRules. revert lines.
  induction rules as [|r rest IH]; intros lines Hnone; simpl.
  - now rewrite app_nil_r.
  - simpl in Hnone. destruct (firstError node ctx r) eqn:E; [discriminate|].
    rewrite convertRule_lines.
    pose proof (convertRule_error node ctx r [] indent) as Herr.
    rewrite E in Herr. rewrite isCodyError_outcomeError, Herr.
    rewrite (IH _ Hnone). now rewrite app_assoc.
Qed.

Lemma forRules_spec node ctx rules lines indent :
  forRules node ctx rules lines indent
  = match firstOf (firstError node ctx) rules with
    | Some e => inr e
    | None =>
        inl (lines
             ++ concat (map (fun r => "" :: translation node ctx indent r)
                          rules))%list
    end.
Proof.
  revert lines. induction rules as [|r rest IH]; intros lines; simpl.
  - now rewrite app_nil_r.
  - rewrite convertRule_lines.
    pose proof (convertRule_error node ctx r [] indent) as Herr.
    destruct (firstError node ctx r) as [e|].
    + apply outcomeError_some in Herr. now rewrite Herr.
    + assert (forRules node ctx rest
                (push lines "" ++ translation node ctx indent r) indent
              = match firstOf (firstError node ctx) rest with
                | Some e => inr e
                | None =>
                    inl (lines
                         ++ ("" :: translation node ctx indent r)
                         ++ concat
                              (map (fun r => "" :: translation node ctx indent r)
                                 rest))%list
                end) as Hrest.
      { rewrite IH. destruct (firstOf _ rest); [reflexivity|].
        unfold push. f_equal. rewrite <- !app_assoc. reflexivity. }
      destruct (fst (convertRule node ctx r [] indent));
        simpl in Herr; try discriminate; exact Hrest.
Qed.

Lemma declareVariables_spec initialVariables lines indent :
  declareVariables initialVariables lines indent
  = (lines ++ map (assignment indent) initialVariables)%list.
Proof.
  unfold declareVariables. revert lines.
  induction initialVariables as [|v vs IH]; intros lines; simpl.
  - now rewrite app_nil_r.
  - rewrite IH. unfold push, assignment. now rewrite <- app_assoc.
Qed.

Theorem convertRuleConfigToAggregateBehavior_spec
    node ctx rules initialVariables indent :
  convertRuleConfigToAggregateBehavior node ctx rules initialVariables indent
  = match rules with
    | [] => inl ""
    | _ :: _ =>
        match firstOf (firstError node ctx) rules with
        | Some e => inr e
        | None =>
            inl (join nl
                   ((indent ++ "const ctx: any = {};")%string
                    :: map (assignment indent) initialVariables
                    ++ concat
                         (map (fun r => "" :: translation node ctx indent r)
                            rules)
                    ++ [""]))%list
        end
    end.
Proof.
  unfold convertRuleConfigToAggregateBehavior.
  destruct rules as [|r rest]; [reflexivity|].
  cbn [List.length Nat.eqb].
  rewrite forRules_spec, declareVariables_spec.
  destruct (firstOf (firstError node ctx) (r :: rest)); [reflexivity|].
  unfold push. do 2 f_equal. rewrite <- !app_assoc. reflexivity.
Qed.

Lemma compile_fails_iff node ctx rules initialVariables indent e :
  convertRuleConfigToAggregateBehavior node ctx rules initialVariables indent
  = inr e
  <-> firstOf (firstError node ctx) rules = Some e.
Proof.
  rewrite convertRuleConfigToAggregateBehavior_spec.
  destruct rules as [|r rest]; [split; discriminate|].
  destruct (firstOf (firstError node ctx) (r :: rest)); split; congruence.
Qed.

Lemma compile_block_iff node ctx rules initialVariables indent :
  (exists block,
     convertRuleConfigToAggregateBehavior node ctx rules initialVariables
       indent = inl block)
  <-> firstOf (firstError node ctx) rules = None.
Proof.
  rewrite convertRuleConfigToAggregateBehavior_spec.
  destruct rules as [|r rest]; [split; eauto|].
  destruct (firstOf (firstError node ctx) (r :: rest)).
  - split; [intros (block & H); discriminate | discriminate].
  - split; eauto.
Qed.

(** The entry point stops at the first rule that gives a diagnostic. *)
Lemma compile_fail_fast node ctx pre r post e initialVariables indent :
  (forall p, In p pre -> translates node ctx indent p) ->
  fst (convertRule node ctx r [] indent) = ReturnsError e ->
  convertRuleConfigToAggregateBehavior node ctx (pre ++ r :: post)
    initialVariables indent
  = inr e.
Proof.
  intros Hpre Hr. rewrite convertRuleConfigToAggregateBehavior_spec.
  assert (firstOf (firstError node ctx) (pre ++ r :: post) = Some e) as ->.
  { rewrite firstOf_app.
    assert (firstOf (firstError node ctx) pre = None) as ->.
    { apply firstOf_none. intros p Hp.
      now apply (translates_firstError node ctx indent), Hpre. }
    simpl. rewrite <- (convertRule_error node ctx r [] indent), Hr.
    reflexivity. }
  destruct pre; reflexivity.
Qed.

Lemma compile_first_rule_fails node ctx rule post e initialVariables indent :
  firstError node ctx rule = Some e ->
  convertRuleConfigToAggregateBehavior node ctx (rule :: post)
    initialVariables indent
  = inr e.
Proof.
  intros H. rewrite convertRuleConfigToAggregateBehavior_spec.
  simpl. now rewrite H.
Qed.

Lemma compile_single_rule_translates node ctx rule initialVariables indent :
  firstError node ctx rule = None ->
  exists block,
    convertRuleConfigToAggregateBehavior node ctx [rule] initialVariables
      indent
    = inl block.
Proof.
  intros H. rewrite convertRuleConfigToAggregateBehavior_spec.
  simpl. rewrite H. eauto.
Qed.

Lemma reachesThen_firstError node ctx rule :
  reachesThen rule -> firstError node ctx rule = thenError node ctx rule.
Proof.
  intros [Halways|[Hcondition Hcond]]; rewrite firstError_eq.
  - now rewrite Halways.
  - rewrite Hcondition. simpl.
    destruct (Rule_if rule), (Rule_if_not rule); try reflexivity.
    destruct Hcond; congruence.
Qed.

Lemma recordEvent_firstError node ctx rule event mapping :
  reachesThen rule ->
  Rule_then rule = ThenRecordEvent event mapping ->
  firstError node ctx rule = recordEventError node ctx event rule.
Proof.
  intros Hreach Hthen. rewrite (reachesThen_firstError _ _ _ Hreach).
  unfold thenError. now rewrite Hthen.
Qed.

(** The lines of a conditional: the opening line, the lines of the
    action one level deeper, and, when the action translates, the
    [return] of a stopping rule and the closing brace. *)
Lemma convertConditionRule_lines node ctx rule lines indent ifCondition expr :
  conditionOf rule = Some (ifCondition, expr) ->
  convertConditionRule node ctx rule lines indent
  = let then_ := fst (convertThen node ctx rule [] (indent ++ "  ")) in
    let opened :=
      conditionHeader indent ifCondition expr
      :: thenTranslation node ctx (indent ++ "  ") rule in
    if isCodyError then_ then (then_, (lines ++ opened)%list)
    else (ReturnsTrue,
          (lines ++ opened
           ++ (if Rule_stop rule then [(indent ++ "  return;")%string] else [])
           ++ [(indent ++ "}")%string])%list).
Proof.
  intros Hcond. unfold convertConditionRule, convertConditionRule_body.
  fold (convertThen node ctx rule). rewrite Hcond, convertThen_lines.
  cbv zeta. destruct (isCodyError _); unfold push, conditionHeader.
  - now rewrite <- app_assoc.
  - destruct (Rule_stop rule); now rewrite <- !app_assoc.
Qed.

Lemma outcomeError_none res :
  isCodyError res = false -> outcomeError res = None.
Proof. now destruct res. Qed.

Lemma payload_fold indent props text :
  fold_left
    (fun propMap '(propName, expr) =>
       propMap ++ (indent ++ "  " ++ quote ++ propName ++ quote
                   ++ ": " ++ wrapExpression expr ++ "," ++ nl))
    props text
  = text ++ flatten (map (payloadEntry indent) props).
Proof.
  revert text. induction props as [|[propName expr] props IH];
    intros text; simpl.
  - now rewrite append_empty_r.
  - rewrite IH. unfold payloadEntry at 2. simpl.
    now rewrite append_assoc.
Qed.

Lemma convertMapping_props node ctx props rule indent :
  convertMapping node ctx (MappingProps props) rule indent
  = inl ("{" ++ nl ++ flatten (map (payloadEntry indent) (forIn props))
         ++ indent ++ "}").
Proof.
  unfold convertMapping. rewrite payload_fold.
  now rewrite !append_assoc.
Qed.

(** The first diagnostic of a rule reached within another is the first
    diagnostic of that other rule, and of every top-level list in which
    the rules before that other rule translate. *)
Lemma reachedWithin_firstError node ctx indent rule outer e :
  reachedWithin node ctx indent rule outer ->
  firstError node ctx rule = Some e ->
  firstError node ctx outer = Some e.
Proof.
  intros Hreached Hrule.
  induction Hreached as [|outer pre inner post Hreach Hthen Hpre _ IH];
    [exact Hrule|].
  rewrite (reachesThen_firstError _ _ _ Hreach). unfold thenError.
  rewrite Hthen, firstOf_app.
  assert (firstOf (firstError node ctx) pre = None) as ->.
  { apply firstOf_none. intros p Hp.
    now apply (translates_firstError node ctx indent), Hpre. }
  simpl. now rewrite IH.
Qed.

Lemma compile_reached_failure node ctx indent rule outer e pre post
    initialVariables :
  (forall p, In p pre -> translates node ctx indent p) ->
  reachedWithin node ctx indent rule outer ->
  firstError node ctx rule = Some e ->
  convertRuleConfigToAggregateBehavior node ctx (pre ++ outer :: post)
    initialVariables indent
  = inr e.
Proof.
  intros Hpre Hreached Hrule. apply compile_fail_fast; [exact Hpre|].
  apply outcomeError_some. rewrite convertRule_error.
  exact (reachedWithin_firstError _ _ _ _ _ _ Hreached Hrule).
Qed.

Lemma convertRule_fails node ctx rule e lines indent :
  firstError node ctx rule = Some e ->
  fst (convertRule node ctx rule lines indent) = ReturnsError e.
Proof.
  intros Hrule. apply outcomeError_some. now rewrite convertRule_error.
Qed.

(** Finds a text among the pieces of a concatenation. *)
Ltac find_occurrence :=
  first [ apply occursIn_middle
        | apply occursIn_append_l; find_occurrence ].

(** ** The entry point on an empty rule list *)

(** C1: with an empty rule list the entry point returns the empty block,
    whatever the node, the context, the initial variables and the
    indentation: neither the namespace declaration nor any assignment is
    emitted. *)
Theorem compile_no_rules node ctx initialVariables indent :
  convertRuleConfigToAggregateBehavior node ctx [] initialVariables indent
  = inl "".
Proof. reflexivity. Qed.

(** ** All or nothing, first diagnostic first *)

(** C2: the entry point returns either a block or one diagnostic, never
    both.  The diagnostic is the first one in list and recursion order
    ([firstOf], [firstError]); a block is returned exactly when there is
    none, and it is then the whole generated block: the declaration, the
    assignments, and after an empty line each the lines of every rule,
    all of which translate.  A diagnostic is returned at once: when the
    rules before a rule translate and that rule gives a diagnostic, the
    result is that diagnostic whatever rules follow. *)
Theorem compile_all_or_nothing node ctx rules initialVariables indent :
  (forall e,
     convertRuleConfigToAggregateBehavior node ctx rules initialVariables
       indent = inr e
     <-> firstOf (firstError node ctx) rules = Some e)
  /\ ((exists block,
        convertRuleConfigToAggregateBehavior node ctx rules initialVariables
          indent = inl block)
      <-> firstOf (firstError node ctx) rules = None)
  /\ (forall block,
        convertRuleConfigToAggregateBehavior node ctx rules initialVariables
          indent = inl block
        <-> firstOf (firstError node ctx) rules = None
            /\ block
               = match rules with
                 | [] => ""
                 | _ :: _ =>
                     join nl
                       ((indent ++ "const ctx: any = {};")%string
                        :: map (assignment indent) initialVariables
                        ++ concat
                             (map (fun r =>
                                     "" :: translation node ctx indent r)
                                rules)
                        ++ [""])%list
                 end)
  /\ ((exists block,
         convertRuleConfigToAggregateBehavior node ctx rules initialVariables
           indent = inl block)
      -> forall r, In r rules -> translates node ctx indent r)
  /\ (forall pre r post e,
        rules = (pre ++ r :: post)%list ->
        (forall p, In p pre -> translates node ctx indent p) ->
        fst (convertRule node ctx r [] indent) = ReturnsError e ->
        convertRuleConfigToAggregateBehavior node ctx rules initialVariables
          indent = inr e).
Proof.
  split; [|split; [|split; [|split]]].
  - intros e. apply compile_fails_iff.
  - apply compile_block_iff.
  - intros block. rewrite convertRuleConfigToAggregateBehavior_spec.
    destruct rules as [|r rest].
    + simpl. split; [intros [= <-]; auto | intros [_ ->]; reflexivity].
    + destruct (firstOf (firstError node ctx) (r :: rest)).
      * split; [discriminate | intros [H _]; discriminate].
      * split; [intros [= <-]; auto | intros [_ ->]; reflexivity].
  - intros Hblock r Hin. apply translates_firstError.
    apply compile_block_iff in Hblock.
    now apply (proj1 (firstOf_none _ _) Hblock).
  - intros pre r post e -> Hpre Hr. now apply compile_fail_fast.
Qed.

(** ** Structural diagnostics *)

(** C3: a condition rule that has neither an [if] nor an [if_not]
    condition gives a diagnostic, returned as a value of severity
    [Error]: its message holds the raw rule content, its details name
    the type and the name of the node.  The rule pushes no line, and
    the entry point, once the rules before it have translated, returns
    that diagnostic and no block. *)
Theorem condition_without_if node ctx rule :
  Rule_rule rule = "condition" ->
  Rule_if rule = None ->
  Rule_if_not rule = None ->
  let diagnostic := noCondition node rule in
  (forall lines indent,
     convertRule node ctx rule lines indent
     = (ReturnsError diagnostic, lines))
  /\ (forall pre post initialVariables indent,
        (forall p, In p pre -> translates node ctx indent p) ->
        convertRuleConfigToAggregateBehavior node ctx
          (pre ++ rule :: post) initialVariables indent
        = inr diagnostic)
  /\ type diagnostic = Error
  /\ occursIn (JSON_stringify rule) (cody diagnostic)
  /\ occursIn (getType node) (details diagnostic)
  /\ occursIn (getName node) (details diagnostic).
Proof.
  intros Hkind Hif Hifnot diagnostic.
  assert (forall lines indent,
            convertRule node ctx rule lines indent
            = (ReturnsError diagnostic, lines)) as Hrule.
  { intros lines indent. rewrite (convertRule_condition _ _ _ _ _ Hkind).
    unfold convertConditionRule, convertConditionRule_body, conditionOf.
    now rewrite Hif, Hifnot. }
  split; [exact Hrule|]. split; [|split; [reflexivity|]].
  - intros pre post initialVariables indent Hpre.
    apply compile_fail_fast; [exact Hpre | now rewrite Hrule].
  - unfold diagnostic, noCondition. cbn [cody details].
    repeat split; find_occurrence.
Qed.

(** C4: a rule whose kind is neither [always] nor [condition] gives a
    diagnostic of severity [Error] and pushes no line; the message
    quotes the unknown kind, and the details list the kinds [always],
    [condition] and [validate]. *)
Theorem unknown_rule_kind node ctx rule lines indent :
  Rule_rule rule <> "always" ->
  Rule_rule rule <> "condition" ->
  exists diagnostic,
    convertRule node ctx rule lines indent = (ReturnsError diagnostic, lines)
    /\ type diagnostic = Error
    /\ cody diagnostic
       = "I don't know how to handle a rule of type " ++ quote
         ++ Rule_rule rule ++ quote ++ "."
    /\ listedKinds (details diagnostic) = ["always"; "condition"; "validate"].
Proof.
  intros Halways Hcondition. exists (unknownRuleType rule).
  rewrite (convertRule_unknown _ _ _ _ _ Halways Hcondition).
  repeat split.
Qed.

(** ** Reference diagnostics of a record action *)

(** C5: a record action whose event name holds a dot fails whatever the
    declared targets are (the lookup is not consulted): the action pushes
    no line and returns a diagnostic, the rule that holds it, once its
    action is reached, returns that diagnostic, and so does the entry
    point for every rule list in which the rule is reached, at any place
    of the list and at any depth of nesting, after rules that translate.
    The diagnostic is the one about the dot, which quotes the resolved
    service, when the owning service resolves; when it does not, it is
    the resolver's own diagnostic, unchanged. *)
Theorem dot_in_event_name node ctx rule event mapping :
  reachesThen rule ->
  Rule_then rule = ThenRecordEvent event mapping ->
  hasChar "." event ->
  forall diagnostic,
    (forall service,
       detectService node ctx = inl service ->
       diagnostic = dotInEventName node service rule) ->
    (forall e, detectService node ctx = inr e -> diagnostic = e) ->
    (forall lines indent,
       convertThenRecordEvent node ctx event mapping rule lines indent
       = (ReturnsError diagnostic, lines))
    /\ (forall lines indent,
          fst (convertRule node ctx rule lines indent)
          = ReturnsError diagnostic)
    /\ (forall outer pre post initialVariables indent,
          (forall p, In p pre -> translates node ctx indent p) ->
          reachedWithin node ctx indent rule outer ->
          convertRuleConfigToAggregateBehavior node ctx (pre ++ outer :: post)
            initialVariables indent
          = inr diagnostic).
Proof.
  intros Hreach Hthen Hdot diagnostic Hresolved Hfailed.
  apply split_pieces in Hdot.
  assert (recordEventError node ctx event rule = Some diagnostic) as Hrecord.
  { unfold recordEventError.
    destruct (detectService node ctx) as [service|e] eqn:Hservice.
    - now rewrite Hdot, (Hresolved service eq_refl).
    - now rewrite (Hfailed e eq_refl). }
  assert (firstError node ctx rule = Some diagnostic) as Hrule
    by now rewrite (recordEvent_firstError _ _ _ _ _ Hreach Hthen).
  split; [|split].
  - intros lines indent. unfold convertThenRecordEvent.
    destruct (detectService node ctx) as [service|e] eqn:Hservice.
    + now rewrite Hdot, (Hresolved service eq_refl).
    + now rewrite (Hfailed e eq_refl).
  - intros lines indent. now apply convertRule_fails.
  - intros outer pre post initialVariables indent Hpre Hreached.
    now apply compile_reached_failure with (rule := rule).
Qed.

(** C6: for a record action that reaches the check (the owning service
    resolves, the event name holds no dot, the lookup of the declared
    targets succeeds), in a rule whose action is reached, the event is
    compared with the declared targets by the class names derived from
    both names: the entry point fails with the diagnostic that the event
    is not known for the aggregate exactly when no declared target has
    the class name of the event, and returns a block when one has. *)
Theorem event_not_among_targets node ctx rule event mapping service events
    initialVariables indent :
  reachesThen rule ->
  Rule_then rule = ThenRecordEvent event mapping ->
  detectService node ctx = inl service ->
  ~ hasChar "." event ->
  getTargetsOfType node NodeType_event true = inl events ->
  (convertRuleConfigToAggregateBehavior node ctx [rule] initialVariables
     indent
   = inr (eventNotKnown node event rule)
   <-> forall evt, In evt events ->
         className (names (getName evt)) <> className (names event))
  /\ ((exists evt, In evt events
                   /\ className (names (getName evt))
                      = className (names event))
      -> exists block,
           convertRuleConfigToAggregateBehavior node ctx [rule]
             initialVariables indent
           = inl block).
Proof.
  intros Hreach Hthen Hservice Hdot Htargets.
  apply split_one_piece in Hdot.
  assert (firstError node ctx rule
          = if eventExistsIn events (names event) then None
            else Some (eventNotKnown node event rule)) as Herr.
  { rewrite (recordEvent_firstError _ _ _ _ _ Hreach Hthen).
    unfold recordEventError. now rewrite Hservice, Hdot, Htargets. }
  destruct (eventExistsIn events (names event)) eqn:Hexists.
  - destruct (compile_single_rule_translates node ctx rule initialVariables
                indent Herr) as [block Hblock].
    split; [|eauto]. rewrite Hblock. split; [discriminate|].
    intros Hnone. apply eventExistsIn_none in Hnone. congruence.
  - rewrite (compile_first_rule_fails _ _ _ [] _ _ _ Herr).
    split.
    + split; [|reflexivity]. intros _. now apply eventExistsIn_none.
    + intros Hsome. apply eventExistsIn_spec in Hsome. congruence.
Qed.

(** ** The shape of the generated lines *)

(** C7: a condition rule that translates adds the opening line of the
    conditional, the lines of its action one level deeper, and the
    closing brace.  With [stop] set, the line [return;] stands after the
    lines of the action and right before the closing brace; with [stop]
    unset or false, the closing brace follows the lines of the action
    directly. *)
Theorem stop_emits_return node ctx rule lines indent res lines' :
  Rule_rule rule = "condition" ->
  convertRule node ctx rule lines indent = (res, lines') ->
  isCodyError res = false ->
  exists ifCondition expr,
    conditionOf rule = Some (ifCondition, expr)
    /\ let header := conditionHeader indent ifCondition expr in
       let action := thenTranslation node ctx (indent ++ "  ") rule in
       (Rule_stop rule = true ->
        lines' = (lines ++ header :: action
                  ++ [(indent ++ "  return;")%string;
                      (indent ++ "}")%string])%list)
       /\ (Rule_stop rule = false ->
           lines' = (lines ++ header :: action
                     ++ [(indent ++ "}")%string])%list).
Proof.
  intros Hkind Hrun Hok.
  rewrite (convertRule_condition _ _ _ _ _ Hkind) in Hrun.
  destruct (conditionOf rule) as [[ifCondition expr]|] eqn:Hcond.
  - exists ifCondition, expr. split; [reflexivity|].
    rewrite (convertConditionRule_lines _ _ _ _ _ _ _ Hcond) in Hrun.
    cbv zeta in Hrun.
    destruct (isCodyError (fst (convertThen node ctx rule [] (indent ++ "  "))))
      eqn:Hthen; injection Hrun as <- <-; [congruence|].
    split; intros ->; reflexivity.
  - unfold convertConditionRule, convertConditionRule_body in Hrun.
    rewrite Hcond in Hrun. injection Hrun as <- <-. discriminate.
Qed.

(** C8: a rule [{condition: if E, then: {execute: [R1, R2]}}] that
    translates adds the opening line, all the lines of [R1], then all
    the lines of [R2], both one level deeper, then the [return] of a
    stopping rule and the closing brace; [R1] and [R2] both translate.
    The lines of a nested rule are those [convertRule] gives it, the
    same the entry point puts, after an empty line each, for the list
    [R1, R2] at the top level. *)
Theorem nested_rules_in_order node ctx E ifNot R1 R2 stop lines indent res
    lines' :
  let rule := MkRule "condition" (Some E) ifNot (ThenExecuteRules [R1; R2])
                stop in
  let deeper := (indent ++ "  ")%string in
  convertRule node ctx rule lines indent = (res, lines') ->
  isCodyError res = false ->
  translates node ctx deeper R1
  /\ translates node ctx deeper R2
  /\ lines'
     = (lines
        ++ conditionHeader indent "if (" E
        :: translation node ctx deeper R1
        ++ translation node ctx deeper R2
        ++ (if stop then [(indent ++ "  return;")%string] else [])
        ++ [(indent ++ "}")%string])%list
  /\ forall initialVariables,
       convertRuleConfigToAggregateBehavior node ctx [R1; R2]
         initialVariables deeper
       = inl (join nl
                ((deeper ++ "const ctx: any = {};")%string
                 :: map (assignment deeper) initialVariables
                 ++ "" :: translation node ctx deeper R1
                 ++ "" :: translation node ctx deeper R2
                 ++ [""]))%list.
Proof.
  intros rule deeper Hrun Hok.
  assert (firstOf (firstError node ctx) [R1; R2] = None) as Hnested.
  { pose proof (convertRule_error node ctx rule lines indent) as Herr.
    rewrite Hrun in Herr. simpl fst in Herr.
    rewrite (outcomeError_none _ Hok) in Herr. symmetry. exact Herr. }
  assert (firstError node ctx R1 = None /\ firstError node ctx R2 = None)
    as [H1 H2].
  { split; apply (proj1 (firstOf_none _ _) Hnested); simpl; auto. }
  split; [now apply translates_firstError|].
  split; [now apply translates_firstError|].
  split.
  - rewrite (convertRule_condition node ctx rule lines indent eq_refl) in Hrun.
    rewrite (convertConditionRule_lines node ctx rule lines indent "if (" E
               eq_refl) in Hrun.
    assert (convertThen node ctx rule [] deeper
            = (ReturnsTrue,
               translation node ctx deeper R1
               ++ translation node ctx deeper R2)%list) as Hthen.
    { change (convertThen node ctx rule [] deeper)
        with (convertThenExecuteRules node ctx [R1; R2] rule [] deeper).
      rewrite (convertThenExecuteRules_spec _ _ _ _ _ _ Hnested).
      simpl. now rewrite app_nil_r. }
    unfold thenTranslation in Hrun. fold deeper in Hrun.
    rewrite Hthen in Hrun. cbn [fst snd isCodyError Rule_stop rule] in Hrun.
    cbv zeta in Hrun. injection Hrun as _ <-.
    do 2 f_equal. symmetry. apply app_assoc.
  - intros initialVariables.
    rewrite convertRuleConfigToAggregateBehavior_spec, Hnested.
    assert (forall (t1 t2 : list string),
              (concat [("" :: t1)%list; ("" :: t2)%list] ++ [""]
               = "" :: t1 ++ "" :: t2 ++ [""])%list) as Hconcat.
    { intros t1 t2. simpl. now rewrite app_nil_r, <- app_assoc. }
    cbn [map]. now rewrite Hconcat.
Qed.

(** ** The order of the fields of an object mapping *)

Lemma insertByIndex_perm i field sorted :
  Permutation (insertByIndex i field sorted) ((i, field) :: sorted).
Proof.
  induction sorted as [|[j other] rest IH]; simpl; [reflexivity|].
  destruct (i <=? j)%N; [reflexivity|].
  rewrite IH. apply perm_swap.
Qed.

Lemma forIn_perm props : Permutation (forIn props) props.
Proof.
  unfold forIn. induction props as [|field rest IH]; simpl; [constructor|].
  destruct (arrayIndex (fst field)) as [i|].
  - rewrite (Permutation_map snd (insertByIndex_perm i field _)).
    simpl. now constructor.
  - rewrite <- Permutation_middle. now constructor.
Qed.

Lemma insertByIndex_sorted i field sorted :
  Sorted (fun a b => (fst a <= fst b)%N) sorted ->
  Sorted (fun a b => (fst a <= fst b)%N) (insertByIndex i field sorted).
Proof.
  induction 1 as [|[j other] rest Hrest IH Hhead]; simpl.
  - repeat constructor.
  - destruct (N.leb_spec i j) as [Hle|Hgt].
    + constructor; [now constructor|]. constructor. exact Hle.
    + constructor; [exact IH|].
      destruct rest as [|[k third] rest']; simpl.
      * constructor. simpl. lia.
      * destruct (i <=? k)%N; constructor; simpl; [lia|].
        inversion Hhead; subst. assumption.
Qed.

Lemma indexedFields_sorted props :
  Sorted (fun a b => (fst a <= fst b)%N) (indexedFields props).
Proof.
  induction props as [|field rest IH]; simpl; [constructor|].
  destruct (arrayIndex (fst field)); [|exact IH].
  now apply insertByIndex_sorted.
Qed.

Lemma insertByIndex_Forall (P : N * (string * string) -> Prop) i field sorted :
  P (i, field) -> Forall P sorted -> Forall P (insertByIndex i field sorted).
Proof.
  intros Hnew Hall.
  eapply Permutation_Forall;
    [symmetry; apply insertByIndex_perm | now constructor].
Qed.

Lemma indexedFields_indices props :
  Forall (fun entry => arrayIndex (fst (snd entry)) = Some (fst entry))
    (indexedFields props).
Proof.
  induction props as [|field rest IH]; simpl; [constructor|].
  destruct (arrayIndex (fst field)) as [i|] eqn:E; [|exact IH].
  now apply insertByIndex_Forall.
Qed.

(** The fields with an array index as name come first, by ascending
    index; the other fields follow as declared. *)
Lemma forIn_indices_first props :
  exists indices,
    forIn props = (map snd (indexedFields props) ++ namedFields props)%list
    /\ map (fun field => arrayIndex (fst field))
         (map snd (indexedFields props))
       = map Some indices
    /\ Sorted N.le indices.
Proof.
  exists (map fst (indexedFields props)). split; [reflexivity|]. split.
  - rewrite !map_map. apply map_ext_in. intros entry Hin.
    pose proof (indexedFields_indices props) as Hall.
    rewrite Forall_forall in Hall. exact (Hall entry Hin).
  - pose proof (indexedFields_sorted props) as Hsorted.
    induction Hsorted as [|entry rest Hrest IH Hhead]; simpl;
      [constructor|].
    constructor; [exact IH|].
    destruct Hhead; simpl; constructor. assumption.
Qed.

Lemma forIn_declared props :
  (forall field, In field props -> arrayIndex (fst field) = None) ->
  forIn props = props.
Proof.
  unfold forIn. induction props as [|field rest IH]; intros Hnone;
    [reflexivity|].
  simpl. rewrite (Hnone field (or_introl eq_refl)).
  assert (forall g, In g rest -> arrayIndex (fst g) = None) as Hrest
    by (intros g Hg; apply Hnone; now right).
  specialize (IH Hrest).
  assert (indexedFields rest = []) as Hempty.
  { clear IH. induction rest as [|g rest' IHr]; [reflexivity|].
    simpl. rewrite (Hrest g (or_introl eq_refl)).
    apply IHr; intros h Hh.
    - apply Hnone. destruct Hh as [<-|Hh]; [now left | right; now right].
    - apply Hrest. now right. }
  rewrite Hempty in *. simpl in *. now rewrite IH.
Qed.

(** ** Mappings and initial variables *)

(** C9: the translation of an object mapping is an opening brace, one
    entry per field of the input, under the field's own name, each value
    the asynchronous evaluation of the field's expression against [ctx],
    and the closing brace.  The entries come in the order [for ... in]
    visits the fields: those whose names are array indices first, by
    ascending index, then the others in the order of declaration; so in
    the order of declaration when no field name is an array index.  The
    translation of a string mapping is that one evaluation and nothing
    around it. *)
Theorem mapping_structure node ctx rule indent :
  (forall props,
     convertMapping node ctx (MappingProps props) rule indent
     = inl ("{" ++ nl ++ flatten (map (payloadEntry indent) (forIn props))
            ++ indent ++ "}")
     /\ Permutation (forIn props) props
     /\ List.length (map (payloadEntry indent) (forIn props))
        = List.length props
     /\ (exists indexed indices,
           forIn props = (indexed ++ namedFields props)%list
           /\ map (fun field => arrayIndex (fst field)) indexed
              = map Some indices
           /\ Sorted N.le indices)
     /\ ((forall field, In field props -> arrayIndex (fst field) = None) ->
         forIn props = props))
  /\ (forall propName expr,
        payloadEntry indent (propName, expr)
        = indent ++ "  " ++ quote ++ propName ++ quote ++ ": "
          ++ "await jexl.eval(" ++ quote ++ expr ++ quote ++ ", ctx)"
          ++ "," ++ nl)
  /\ (forall expr,
        convertMapping node ctx (MappingString expr) rule indent
        = inl ("await jexl.eval(" ++ quote ++ expr ++ quote ++ ", ctx)")).
Proof.
  split; [|split].
  - intros props. split; [apply convertMapping_props|].
    split; [apply forIn_perm|].
    split; [rewrite length_map; apply Permutation_length, forIn_perm|].
    split; [|apply forIn_declared].
    destruct (forIn_indices_first props) as (indices & Hshape & Hidx & Hsorted).
    exists (map snd (indexedFields props)), indices. auto.
  - intros propName expr. unfold payloadEntry, wrapExpression. simpl.
    now rewrite !append_assoc.
  - reflexivity.
Qed.

(** C10: in a block the entry point returns for a rule list that is not
    empty, the namespace declaration is followed by one assignment
    [ctx['<name>'] = <initializer>;] per initial variable, in order,
    with the initializer text as it is: the assignment is not the one
    that would wrap the initializer in [await jexl.eval(..., ctx)].  The
    expression of an [if] or [if_not] condition and the expressions of a
    mapping are wrapped that way. *)
Theorem initializers_spliced_verbatim node ctx rules initialVariables indent
    block :
  rules <> [] ->
  convertRuleConfigToAggregateBehavior node ctx rules initialVariables indent
  = inl block ->
  (exists rest,
     block
     = join nl ((indent ++ "const ctx: any = {};")%string
                :: map (assignment indent) initialVariables ++ rest)%list)
  /\ (forall variable,
        assignment indent variable
        = indent ++ "ctx['" ++ name variable ++ "'] = "
          ++ initializer variable ++ ";"
        /\ assignment indent variable
           <> indent ++ "ctx['" ++ name variable ++ "'] = "
              ++ wrapExpression (initializer variable) ++ ";")
  /\ (forall rule lines ind ifCondition expr,
        conditionOf rule = Some (ifCondition, expr) ->
        exists res rest,
          convertConditionRule node ctx rule lines ind
          = (res,
             (lines
              ++ (ind ++ ifCondition ++ "(" ++ "await jexl.eval(" ++ quote
                  ++ expr ++ quote ++ ", ctx)" ++ ")) {")%string
              :: rest)%list))
  /\ (forall r ind expr,
        convertMapping node ctx (MappingString expr) r ind
        = inl ("await jexl.eval(" ++ quote ++ expr ++ quote ++ ", ctx)"))
  /\ (forall r ind props,
        convertMapping node ctx (MappingProps props) r ind
        = inl ("{" ++ nl
               ++ flatten
                    (map (fun field =>
                            ind ++ "  " ++ quote ++ fst field ++ quote
                            ++ ": " ++ "await jexl.eval(" ++ quote
                            ++ snd field ++ quote ++ ", ctx)" ++ "," ++ nl)
                       (forIn props))
               ++ ind ++ "}")).
Proof.
  intros Hrules Hrun.
  rewrite convertRuleConfigToAggregateBehavior_spec in Hrun.
  destruct rules as [|r rest]; [contradiction|].
  destruct (firstOf (firstError node ctx) (r :: rest)); [discriminate|].
  injection Hrun as <-.
  split; [|split; [|split; [|split]]].
  - exists (concat (map (fun r0 => "" :: translation node ctx indent r0)
                      (r :: rest)) ++ [""])%list.
    reflexivity.
  - intros variable. split; [reflexivity|].
    unfold assignment. intros H.
    do 4 apply append_cancel_l in H.
    apply (f_equal String.length) in H.
    unfold wrapExpression in H. rewrite !length_append in H.
    simpl in H. lia.
  - intros rule lines ind ifCondition expr Hcond.
    rewrite (convertConditionRule_lines _ _ _ _ _ _ _ Hcond). cbv zeta.
    assert (conditionHeader ind ifCondition expr
            = ind ++ ifCondition ++ "(" ++ "await jexl.eval(" ++ quote
              ++ expr ++ quote ++ ", ctx)" ++ ")) {") as <-.
    { unfold conditionHeader, wrapExpression.
      do 3 f_equal. now rewrite !append_assoc. }
    destruct (isCodyError _); do 2 eexists; reflexivity.
  - reflexivity.
  - intros r0 ind props. rewrite convertMapping_props.
    do 5 f_equal. apply map_ext. intros [propName expr].
    unfold payloadEntry, wrapExpression. simpl. now rewrite !append_assoc.
Qed.

(** ** Further properties of the translation *)

Lemma join_not_empty (line : string) (lines : list string) :
  lines <> [] -> join nl (line :: lines) <> "".
Proof.
  intros Hlines Hjoin. destruct lines as [|next lines]; [contradiction|].
  change (join nl (line :: next :: lines))
    with (line ++ nl ++ join nl (next :: lines)) in Hjoin.
  apply (f_equal String.length) in Hjoin.
  rewrite !length_append in Hjoin. simpl in Hjoin. lia.
Qed.

(** X1: a rule is translated without regard to the lines pushed before
    it: whatever they are, they are kept as they are, the outcome is the
    same and the same lines are added after them, also when the rule
    gives a diagnostic. *)
Theorem translation_ignores_earlier_lines node ctx rule lines1 lines2 indent :
  fst (convertRule node ctx rule lines1 indent)
  = fst (convertRule node ctx rule lines2 indent)
  /\ exists added,
       snd (convertRule node ctx rule lines1 indent) = (lines1 ++ added)%list
       /\ snd (convertRule node ctx rule lines2 indent)
          = (lines2 ++ added)%list.
Proof.
  rewrite (convertRule_lines node ctx rule lines1),
          (convertRule_lines node ctx rule lines2).
  split; [reflexivity|].
  exists (translation node ctx indent rule). split; reflexivity.
Qed.

(** X2: whether the entry point returns a block or a diagnostic, and
    which diagnostic, depends on the rules and the graph only: other
    initial variables and another indentation give the same diagnostic,
    or again a block. *)
Theorem result_kind_ignores_layout node ctx rules variables1 indent1
    variables2 indent2 :
  match convertRuleConfigToAggregateBehavior node ctx rules variables1
          indent1 with
  | inr e =>
      convertRuleConfigToAggregateBehavior node ctx rules variables2 indent2
      = inr e
  | inl _ =>
      exists block,
        convertRuleConfigToAggregateBehavior node ctx rules variables2 indent2
        = inl block
  end.
Proof.
  rewrite !convertRuleConfigToAggregateBehavior_spec.
  destruct rules as [|r rest]; [eauto|].
  destruct (firstOf (firstError node ctx) (r :: rest)); eauto.
Qed.

(** X3: a block returned for rules is, line by line: the namespace
    declaration, the assignments of the initial variables in order, then
    for each rule in order an empty line and the lines of that rule, then
    a last empty line; the lines are joined by line feeds, and every rule
    translates. *)
Theorem block_shape node ctx rules initialVariables indent block :
  rules <> [] ->
  convertRuleConfigToAggregateBehavior node ctx rules initialVariables indent
  = inl block ->
  block
  = join nl
      ((indent ++ "const ctx: any = {};")%string
       :: map (assignment indent) initialVariables
       ++ concat (map (fun r => "" :: translation node ctx indent r) rules)
       ++ [""])%list
  /\ forall r, In r rules -> translates node ctx indent r.
Proof.
  intros Hrules Hrun.
  rewrite convertRuleConfigToAggregateBehavior_spec in Hrun.
  destruct rules as [|r rest]; [contradiction|].
  destruct (firstOf (firstError node ctx) (r :: rest)) eqn:Hfirst;
    [discriminate|].
  injection Hrun as <-. split; [reflexivity|].
  intros r0 Hin. apply translates_firstError.
  now apply (proj1 (firstOf_none _ _) Hfirst).
Qed.

(** X4: the empty block is returned for the empty rule list only: with
    at least one rule the entry point returns a diagnostic or a block that
    is not empty. *)
Theorem empty_block_only_without_rules node ctx rules initialVariables indent :
  convertRuleConfigToAggregateBehavior node ctx rules initialVariables indent
  = inl ""
  <-> rules = [].
Proof.
  split; [|intros ->; reflexivity].
  intros Hrun. rewrite convertRuleConfigToAggregateBehavior_spec in Hrun.
  destruct rules as [|r rest]; [reflexivity|].
  destruct (firstOf (firstError node ctx) (r :: rest)); [discriminate|].
  injection Hrun as Hrun. exfalso.
  revert Hrun. apply join_not_empty.
  intros Htail. apply app_eq_nil in Htail as [_ Htail].
  discriminate Htail.
Qed.

(** X5: a record action that passes its checks (the service resolves,
    the event name holds no dot, a declared target has the class name of
    the event) adds exactly one line, the [yield] of the event under its
    property name with the mapping as argument, and returns nothing. *)
Theorem record_event_yields node ctx rule event mapping service events lines
    indent :
  detectService node ctx = inl service ->
  ~ hasChar "." event ->
  getTargetsOfType node NodeType_event true = inl events ->
  (exists evt, In evt events
               /\ className (names (getName evt)) = className (names event)) ->
  exists payload,
    convertMapping node ctx mapping rule indent = inl payload
    /\ convertThenRecordEvent node ctx event mapping rule lines indent
       = (ReturnsUndefined,
          (lines
           ++ [(indent ++ "yield " ++ propertyName (names event) ++ "("
                ++ payload ++ ");")%string])%list).
Proof.
  intros Hservice Hdot Htargets Hexists.
  apply split_one_piece in Hdot. apply eventExistsIn_spec in Hexists.
  destruct (convertMapping_succeeds node ctx mapping rule indent)
    as [payload Hpayload].
  exists payload. split; [exact Hpayload|].
  unfold convertThenRecordEvent.
  now rewrite Hservice, Hdot, Htargets, Hexists, Hpayload.
Qed.

(** X6: when the service of the node does not resolve, a record action
    pushes no line and returns the resolver's diagnostic unchanged,
    whatever the event name and the declared targets; the rule that holds
    it, once its action is reached, returns it too, and so does the entry
    point for every rule list in which the rule is reached, at any place
    and depth, after rules that translate. *)
Theorem service_failure_propagates node ctx rule event mapping e :
  reachesThen rule ->
  Rule_then rule = ThenRecordEvent event mapping ->
  detectService node ctx = inr e ->
  (forall lines indent,
     convertThenRecordEvent node ctx event mapping rule lines indent
     = (ReturnsError e, lines))
  /\ (forall lines indent,
        fst (convertRule node ctx rule lines indent) = ReturnsError e)
  /\ (forall outer pre post initialVariables indent,
        (forall p, In p pre -> translates node ctx indent p) ->
        reachedWithin node ctx indent rule outer ->
        convertRuleConfigToAggregateBehavior node ctx (pre ++ outer :: post)
          initialVariables indent
        = inr e).
Proof.
  intros Hreach Hthen Hservice.
  assert (firstError node ctx rule = Some e) as Hrule.
  { rewrite (recordEvent_firstError _ _ _ _ _ Hreach Hthen).
    unfold recordEventError. now rewrite Hservice. }
  split; [|split].
  - intros lines indent. unfold convertThenRecordEvent. now rewrite Hservice.
  - intros lines indent. now apply convertRule_fails.
  - intros outer pre post initialVariables indent Hpre Hreached.
    now apply compile_reached_failure with (rule := rule).
Qed.

(** X7: when the lookup of the declared targets fails, for an event name
    without a dot and a resolved service, a record action pushes no line
    and returns the diagnostic of the lookup unchanged; the rule that
    holds it, once its action is reached, returns it too, and so does the
    entry point for every rule list in which the rule is reached, at any
    place and depth, after rules that translate. *)
Theorem lookup_failure_propagates node ctx rule event mapping service e :
  reachesThen rule ->
  Rule_then rule = ThenRecordEvent event mapping ->
  detectService node ctx = inl service ->
  ~ hasChar "." event ->
  getTargetsOfType node NodeType_event true = inr e ->
  (forall lines indent,
     convertThenRecordEvent node ctx event mapping rule lines indent
     = (ReturnsError e, lines))
  /\ (forall lines indent,
        fst (convertRule node ctx rule lines indent) = ReturnsError e)
  /\ (forall outer pre post initialVariables indent,
        (forall p, In p pre -> translates node ctx indent p) ->
        reachedWithin node ctx indent rule outer ->
        convertRuleConfigToAggregateBehavior node ctx (pre ++ outer :: post)
          initialVariables indent
        = inr e).
Proof.
  intros Hreach Hthen Hservice Hdot Htargets.
  apply split_one_piece in Hdot.
  assert (firstError node ctx rule = Some e) as Hrule.
  { rewrite (recordEvent_firstError _ _ _ _ _ Hreach Hthen).
    unfold recordEventError. now rewrite Hservice, Hdot, Htargets. }
  split; [|split].
  - intros lines indent. unfold convertThenRecordEvent.
    now rewrite Hservice, Hdot, Htargets.
  - intros lines indent. now apply convertRule_fails.
  - intros outer pre post initialVariables indent Hpre Hreached.
    now apply compile_reached_failure with (rule := rule).
Qed.

(** X8: for a rule whose [then] part is neither a record action nor an
    execute action, [convertThen] pushes no line and returns a diagnostic
    of severity [Error] whose message holds the raw rule content and
    whose details list six actions, of which only [record: event] and
    [execute: rules] are dispatched.  When the action of the rule is
    reached (an [always] rule, or a [condition] rule with a condition),
    the rule returns that diagnostic, and so does the entry point for
    every rule list in which the rule is reached, at any place and depth,
    after rules that translate. *)
Theorem unknown_then_shape node ctx rule :
  Rule_then rule = ThenOther ->
  let diagnostic := unknownThen rule in
  (forall lines indent,
     convertThen node ctx rule lines indent = (ReturnsError diagnostic, lines))
  /\ type diagnostic = Error
  /\ occursIn (JSON_stringify rule) (cody diagnostic)
  /\ listedKinds (details diagnostic)
     = ["record: event"; "throw: error"; "assign: variable";
        "trigger: command"; "perform: query"; "execute: rules"]
  /\ (reachesThen rule ->
      (forall lines indent,
         fst (convertRule node ctx rule lines indent)
         = ReturnsError diagnostic)
      /\ (forall outer pre post initialVariables indent,
            (forall p, In p pre -> translates node ctx indent p) ->
            reachedWithin node ctx indent rule outer ->
            convertRuleConfigToAggregateBehavior node ctx
              (pre ++ outer :: post) initialVariables indent
            = inr diagnostic)).
Proof.
  intros Hthen diagnostic. split; [|split; [|split; [|split]]].
  - intros lines ind. unfold convertThen, convertThen_body. now rewrite Hthen.
  - reflexivity.
  - unfold diagnostic, unknownThen. cbn [cody]. find_occurrence.
  - reflexivity.
  - intros Hreach.
    assert (firstError node ctx rule = Some diagnostic) as Hrule.
    { rewrite (reachesThen_firstError _ _ _ Hreach).
      unfold thenError. now rewrite Hthen. }
    split.
    + intros lines indent. now apply convertRule_fails.
    + intros outer pre post initialVariables indent Hpre Hreached.
      now apply compile_reached_failure with (rule := rule).
Qed.

(** *** What the lines depend on *)

Lemma convertMapping_ignores_rule node ctx mapping rule1 rule2 indent :
  convertMapping node ctx mapping rule1 indent
  = convertMapping node ctx mapping rule2 indent.
Proof. destruct mapping; reflexivity. Qed.

Lemma convertThenExecuteRules_ignores_rule node ctx rules rule1 rule2 lines
    indent :
  convertThenExecuteRules node ctx rules rule1 lines indent
  = convertThenExecuteRules node ctx rules rule2 lines indent.
Proof.
  unfold convertThenExecuteRules. revert lines.
  induction rules as [|r rest IH]; intros lines; simpl; [reflexivity|].
  destruct (convertRule node ctx r lines indent) as [res lines'].
  destruct (isCodyError res); [reflexivity | apply IH].
Qed.

(** The lines of an action, and whether it fails, depend on the [then]
    part only; the rest of the rule shows in diagnostics alone. *)
Lemma convertThen_depends_on_then node ctx rule1 rule2 lines indent :
  Rule_then rule1 = Rule_then rule2 ->
  snd (convertThen node ctx rule1 lines indent)
  = snd (convertThen node ctx rule2 lines indent)
  /\ isCodyError (fst (convertThen node ctx rule1 lines indent))
     = isCodyError (fst (convertThen node ctx rule2 lines indent)).
Proof.
  intros Hthen. unfold convertThen, convertThen_body. rewrite Hthen.
  destruct (Rule_then rule2) as [event mapping|rules|].
  - unfold convertThenRecordEvent.
    rewrite (convertMapping_ignores_rule node ctx mapping rule1 rule2).
    destruct (detectService node ctx); [|split; reflexivity].
    destruct (1 <? _)%nat; [split; reflexivity|].
    destruct (getTargetsOfType node NodeType_event true);
      [|split; reflexivity].
    destruct (negb _); [split; reflexivity|].
    destruct (convertMapping node ctx mapping rule2 indent);
      split; reflexivity.
  - fold convertThenExecuteRules.
    rewrite (convertThenExecuteRules_ignores_rule node ctx rules rule1 rule2).
    split; reflexivity.
  - split; reflexivity.
Qed.

Lemma translates_convertRule node ctx indent rule :
  translates node ctx indent rule
  <-> isCodyError (fst (convertRule node ctx rule [] indent)) = false.
Proof. reflexivity. Qed.

(** X9: an [always] rule is translated by its [then] part alone: rules
    of kind [always] with the same [then] part add the same lines and
    translate together, whatever their [if], [if_not] and [stop] are; a
    [stop] on an [always] rule adds no [return]. *)
Theorem always_ignores_condition_and_stop node ctx indent rule1 rule2 :
  Rule_rule rule1 = "always" ->
  Rule_rule rule2 = "always" ->
  Rule_then rule1 = Rule_then rule2 ->
  translation node ctx indent rule1 = translation node ctx indent rule2
  /\ (translates node ctx indent rule1 <-> translates node ctx indent rule2).
Proof.
  intros H1 H2 Hthen. unfold translates, translation.
  rewrite (convertRule_always _ _ _ _ _ H1), (convertRule_always _ _ _ _ _ H2).
  destruct (convertThen_depends_on_then node ctx rule1 rule2 [] indent Hthen)
    as [Hlines Hfails].
  split; [exact Hlines|]. now rewrite Hfails.
Qed.

(** X10: when a condition rule has both an [if] and an [if_not]
    expression, the [if] decides: the rule adds the lines, and translates
    in the cases, of the rule without the [if_not]. *)
Theorem if_wins_over_if_not node ctx indent ifExpr ifNotExpr th stop :
  let both := MkRule "condition" (Some ifExpr) (Some ifNotExpr) th stop in
  let onlyIf := MkRule "condition" (Some ifExpr) None th stop in
  translation node ctx indent both = translation node ctx indent onlyIf
  /\ (translates node ctx indent both <-> translates node ctx indent onlyIf)
  /\ exists rest,
       translation node ctx indent both
       = conditionHeader indent "if (" ifExpr :: rest.
Proof.
  intros both onlyIf. unfold translates, translation.
  rewrite (convertRule_condition node ctx both [] indent eq_refl),
          (convertRule_condition node ctx onlyIf [] indent eq_refl).
  rewrite (convertConditionRule_lines node ctx both [] indent "if (" ifExpr
             eq_refl),
          (convertConditionRule_lines node ctx onlyIf [] indent "if (" ifExpr
             eq_refl).
  cbv zeta. unfold thenTranslation.
  destruct (convertThen_depends_on_then node ctx both onlyIf []
              (indent ++ "  ") eq_refl) as [Hlines Hfails].
  rewrite Hlines, Hfails.
  destruct (isCodyError (fst (convertThen node ctx onlyIf [] (indent ++ "  "))))
    eqn:Honly;
    (split; [reflexivity|]);
    (split; [cbn [fst]; rewrite ?Hfails, ?Honly; reflexivity|]);
    eexists; reflexivity.
Qed.

(** X11: an [always] rule with an execute action is transparent: when
    its nested rules all translate it adds their lines, in order, at its
    own indentation, and nothing else; with no nested rule it adds no
    line and still succeeds. *)
Theorem always_execute_is_transparent node ctx rule rules lines indent :
  Rule_rule rule = "always" ->
  Rule_then rule = ThenExecuteRules rules ->
  (forall r, In r rules -> translates node ctx indent r) ->
  convertRule node ctx rule lines indent
  = (ReturnsTrue,
     (lines ++ concat (map (translation node ctx indent) rules))%list).
Proof.
  intros Hkind Hthen Hrules.
  rewrite (convertRule_always _ _ _ _ _ Hkind).
  unfold convertThen, convertThen_body. rewrite Hthen.
  apply convertThenExecuteRules_spec. apply firstOf_none.
  intros r Hin. now apply (translates_firstError node ctx indent), Hrules.
Qed.

(** X12: an execute action stops at its first rule that gives a
    diagnostic: the lines pushed are those of the rules before it and
    those that rule added before it failed; nothing of the rules after it
    is translated. *)
Theorem nested_rules_stop_at_first_failure node ctx pre r post rule e lines
    indent :
  (forall p, In p pre -> translates node ctx indent p) ->
  fst (convertRule node ctx r [] indent) = ReturnsError e ->
  convertThenExecuteRules node ctx (pre ++ r :: post) rule lines indent
  = (ReturnsError e,
     (lines ++ concat (map (translation node ctx indent) pre)
      ++ translation node ctx indent r)%list).
Proof.
  unfold convertThenExecuteRules. revert lines.
  induction pre as [|p pre IH]; intros lines Hpre Hr; simpl.
  - rewrite convertRule_lines, Hr. reflexivity.
  - rewrite convertRule_lines.
    assert (translates node ctx indent p) as Hp by (apply Hpre; now left).
    unfold translates in Hp. rewrite Hp.
    rewrite IH; [|intros q Hq; apply Hpre; now right | exact Hr].
    now rewrite <- !app_assoc.
Qed.

(** X13: a diagnostic of a nested rule comes out of the entry point
    unchanged: when a rule gives a diagnostic and is reached within a rule
    of the top-level list (at any depth of execute actions, each in a
    rule whose action is reached and after nested rules that translate),
    and the top-level rules before that one translate, the entry point
    returns the diagnostic of the nested rule, whatever follows. *)
Theorem nested_diagnostic_bubbles node ctx r outer e pre post
    initialVariables indent :
  (forall p, In p pre -> translates node ctx indent p) ->
  reachedWithin node ctx indent r outer ->
  fst (convertRule node ctx r [] indent) = ReturnsError e ->
  fst (convertRule node ctx outer [] indent) = ReturnsError e
  /\ convertRuleConfigToAggregateBehavior node ctx (pre ++ outer :: post)
       initialVariables indent
     = inr e.
Proof.
  intros Hpre Hreached Hr.
  assert (firstError node ctx r = Some e) as Hrule
    by now rewrite <- (convertRule_error node ctx r [] indent), Hr.
  split.
  - apply convertRule_fails.
    exact (reachedWithin_firstError _ _ _ _ _ _ Hreached Hrule).
  - now apply compile_reached_failure with (rule := r).
Qed.

(** X14: the entry point on two rule lists in a row returns the
    diagnostic of the first list when that fails, else the diagnostic of
    the second when that fails, and a block when both give a block. *)
Theorem compile_rule_lists_in_a_row node ctx rules1 rules2 initialVariables
    indent :
  match convertRuleConfigToAggregateBehavior node ctx rules1 initialVariables
          indent with
  | inr e =>
      convertRuleConfigToAggregateBehavior node ctx (rules1 ++ rules2)
        initialVariables indent
      = inr e
  | inl _ =>
      match convertRuleConfigToAggregateBehavior node ctx rules2
              initialVariables indent with
      | inr e =>
          convertRuleConfigToAggregateBehavior node ctx (rules1 ++ rules2)
            initialVariables indent
          = inr e
      | inl _ =>
          exists block,
            convertRuleConfigToAggregateBehavior node ctx (rules1 ++ rules2)
              initialVariables indent
            = inl block
      end
  end.
Proof.
  destruct (convertRuleConfigToAggregateBehavior node ctx rules1
              initialVariables indent) as [block1|e1] eqn:H1.
  - assert (firstOf (firstError node ctx) rules1 = None) as Hnone1
      by (eapply compile_block_iff; eauto).
    destruct (convertRuleConfigToAggregateBehavior node ctx rules2
                initialVariables indent) as [block2|e2] eqn:H2.
    + apply compile_block_iff. rewrite firstOf_app, Hnone1.
      eapply compile_block_iff; eauto.
    + apply compile_fails_iff. rewrite firstOf_app, Hnone1.
      eapply compile_fails_iff; eauto.
  - apply compile_fails_iff. apply compile_fails_iff in H1.
    now rewrite firstOf_app, H1.
Qed.

(** *** Severity *)

Lemma firstOf_some (f : Rule -> option CodyResponse) rules e :
  firstOf f rules = Some e -> exists r, In r rules /\ f r = Some e.
Proof.
  induction rules as [|r rules IH]; simpl; [discriminate|].
  destruct (f r) eqn:E.
  - intros [= <-]. exists r. split; [now left | exact E].
  - intros H. destruct (IH H) as (r' & Hin & Hr').
    exists r'. split; [now right | exact Hr'].
Qed.

Lemma firstError_type node ctx :
  (forall e, detectService node ctx = inr e -> type e = Error) ->
  (forall e, getTargetsOfType node NodeType_event true = inr e
             -> type e = Error) ->
  forall rule e, firstError node ctx rule = Some e -> type e = Error.
Proof.
  intros Hservice Htargets.
  assert (forall rule,
            (forall rules, Rule_then rule = ThenExecuteRules rules ->
               Forall (fun r => forall e, firstError node ctx r = Some e
                                          -> type e = Error) rules) ->
            forall e, firstError node ctx rule = Some e -> type e = Error)
    as Hrule.
  { intros rule Hnested e. rewrite firstError_eq.
    assert (forall e, thenError node ctx rule = Some e -> type e = Error)
      as Hthen.
    { clear e. intros e. unfold thenError.
      destruct (Rule_then rule) as [event mapping|rules|] eqn:Hshape.
      - unfold recordEventError.
        destruct (detectService node ctx) as [service|e0] eqn:Hs;
          [|intros [= <-]; now apply Hservice].
        destruct (1 <? _)%nat; [intros [= <-]; reflexivity|].
        destruct (getTargetsOfType node NodeType_event true) as [events|e0]
          eqn:Ht; [|intros [= <-]; now apply Htargets].
        destruct (eventExistsIn _ _); [discriminate|].
        intros [= <-]. reflexivity.
      - intros Hfirst. apply firstOf_some in Hfirst as (r & Hin & Hr).
        pose proof (Hnested rules eq_refl) as Hall.
        rewrite Forall_forall in Hall. now apply (Hall r Hin).
      - intros [= <-]. reflexivity. }
    destruct (Rule_rule rule =? "always"); [apply Hthen|].
    destruct (Rule_rule rule =? "condition"); [|intros [= <-]; reflexivity].
    destruct (Rule_if rule), (Rule_if_not rule); try apply Hthen.
    intros [= <-]. reflexivity. }
  intros rule.
  induction rule as [kind i n event mapping stop
                    |kind i n rules stop IH
                    |kind i n stop] using Rule_nested_ind;
    apply Hrule; simpl; intros rs Hrs;
    first [discriminate | injection Hrs as <-; exact IH].
Qed.

(** X15: when the diagnostics of the service resolver and of the targets
    lookup have severity [Error], every diagnostic the entry point returns
    has severity [Error]. *)
Theorem diagnostics_are_errors node ctx rules initialVariables indent e :
  (forall e', detectService node ctx = inr e' -> type e' = Error) ->
  (forall e', getTargetsOfType node NodeType_event true = inr e'
              -> type e' = Error) ->
  convertRuleConfigToAggregateBehavior node ctx rules initialVariables indent
  = inr e ->
  type e = Error.
Proof.
  intros Hservice Htargets Hrun. apply compile_fails_iff in Hrun.
  apply firstOf_some in Hrun as (r & _ & Hr).
  exact (firstError_type node ctx Hservice Htargets r e Hr).
Qed.

(** *** The number of lines *)

Lemma lineCount_eq rule :
  lineCount rule
  = if Rule_rule rule =? "always" then actionCount rule
    else if Rule_rule rule =? "condition"
    then 1 + actionCount rule + (if Rule_stop rule then 1 else 0) + 1
    else 0.
Proof. destruct rule; reflexivity. Qed.

Lemma convertThen_outcome node ctx rule lines indent :
  outcomeError (fst (convertThen node ctx rule lines indent))
  = thenError node ctx rule.
Proof.
  apply convertThen_error. intros rules _. apply Forall_forall.
  intros r _. apply convertRule_error.
Qed.

Lemma recordEvent_translates node ctx event mapping rule lines indent :
  recordEventError node ctx event rule = None ->
  exists line,
    convertThenRecordEvent node ctx event mapping rule lines indent
    = (ReturnsUndefined, (lines ++ [line])%list).
Proof.
  unfold recordEventError, convertThenRecordEvent.
  destruct (detectService node ctx); [|discriminate].
  destruct (1 <? _)%nat; [discriminate|].
  destruct (getTargetsOfType node NodeType_event true); [|discriminate].
  destruct (eventExistsIn _ _); [|discriminate]. intros _. simpl.
  destruct (convertMapping_succeeds node ctx mapping rule indent) as [t ->].
  eexists. reflexivity.
Qed.

Lemma thenTranslation_length node ctx rule :
  (forall rules, Rule_then rule = ThenExecuteRules rules ->
     Forall (fun r => forall indent,
               translates node ctx indent r ->
               List.length (translation node ctx indent r) = lineCount r)
            rules) ->
  forall indent,
    thenError node ctx rule = None ->
    List.length (thenTranslation node ctx indent rule) = actionCount rule.
Proof.
  intros Hnested indent.
  unfold thenError, thenTranslation, convertThen, convertThen_body,
    actionCount.
  destruct (Rule_then rule) as [event mapping|rules|] eqn:Hshape.
  - intros Hnone.
    destruct (recordEvent_translates node ctx event mapping rule [] indent
                Hnone) as [line ->].
    reflexivity.
  - intros Hnone. fold convertThenExecuteRules.
    rewrite (convertThenExecuteRules_spec _ _ _ _ _ _ Hnone).
    cbn [snd app]. rewrite length_concat, map_map. f_equal.
    apply map_ext_in. intros r Hin.
    pose proof (Hnested rules eq_refl) as Hall.
    rewrite Forall_forall in Hall. apply (Hall r Hin).
    apply translates_firstError.
    now apply (proj1 (firstOf_none _ _) Hnone).
  - discriminate.
Qed.

Lemma lines_counted_of_then node ctx rule :
  (forall indent,
     thenError node ctx rule = None ->
     List.length (thenTranslation node ctx indent rule) = actionCount rule) ->
  forall indent,
    translates node ctx indent rule ->
    List.length (translation node ctx indent rule) = lineCount rule.
Proof.
  intros Hthen indent Htranslates.
  apply translates_firstError in Htranslates.
  rewrite firstError_eq in Htranslates. rewrite lineCount_eq.
  unfold translation.
  destruct (Rule_rule rule =? "always") eqn:Halways.
  - apply String.eqb_eq in Halways.
    rewrite (convertRule_always _ _ _ _ _ Halways).
    exact (Hthen indent Htranslates).
  - destruct (Rule_rule rule =? "condition") eqn:Hcondition; [|discriminate].
    apply String.eqb_eq in Hcondition.
    rewrite (convertRule_condition _ _ _ _ _ Hcondition).
    destruct (conditionOf rule) as [[ifCondition expr]|] eqn:Hcond.
    + assert (thenError node ctx rule = None) as Hnone.
      { unfold conditionOf in Hcond.
        destruct (Rule_if rule), (Rule_if_not rule);
          try exact Htranslates; discriminate. }
      rewrite (convertConditionRule_lines _ _ _ _ _ _ _ Hcond). cbv zeta.
      rewrite isCodyError_outcomeError, convertThen_outcome, Hnone.
      cbn [snd app]. cbn [List.length]. rewrite !length_app.
      rewrite (Hthen (indent ++ "  ") Hnone).
      destruct (Rule_stop rule); simpl; lia.
    + unfold conditionOf in Hcond.
      destruct (Rule_if rule), (Rule_if_not rule); discriminate.
Qed.

(** X16: the number of lines a rule adds when it translates is fixed by
    the rule: one per record action, an opening and a closing line per
    conditional and one more for each conditional that stops; it does not
    depend on the indentation, the expressions or the graph. *)
Theorem lines_counted node ctx rule :
  forall indent,
    translates node ctx indent rule ->
    List.length (translation node ctx indent rule) = lineCount rule.
Proof.
  induction rule as [kind i n event mapping stop
                    |kind i n rules stop IH
                    |kind i n stop] using Rule_nested_ind;
    apply lines_counted_of_then; apply thenTranslation_length; simpl;
    intros rs Hrs; first [discriminate | injection Hrs as <-; exact IH].
Qed.

(** *** Indentation *)

Lemma startsWith_self (indent rest : string) :
  startsWith indent (indent ++ rest).
Proof. now exists rest. Qed.

Lemma startsWith_deeper (indent line : string) :
  startsWith (indent ++ "  ") line -> startsWith indent line.
Proof.
  intros [rest ->]. exists ("  " ++ rest). now rewrite append_assoc.
Qed.

Lemma indented_execute node ctx rules rule :
  Forall (fun r => forall indent,
            Forall (startsWith indent) (translation node ctx indent r))
         rules ->
  forall indent,
    Forall (startsWith indent)
      (snd (convertThenExecuteRules node ctx rules rule [] indent)).
Proof.
  induction 1 as [|r rest Hr _ IH]; intros indent; [constructor|].
  unfold convertThenExecuteRules. simpl. fold convertThenExecuteRules.
  specialize (Hr indent). unfold translation in Hr.
  destruct (convertRule node ctx r [] indent) as [res added].
  simpl in Hr. destruct (isCodyError res); [exact Hr|].
  rewrite (convertThenExecuteRules_appendsOnly node ctx rest rule);
    [|apply Forall_forall; intros r0 _; apply convertRule_appendsOnly].
  simpl. apply Forall_app. split; [exact Hr | apply IH].
Qed.

Lemma indented_then node ctx rule :
  (forall rules, Rule_then rule = ThenExecuteRules rules ->
     Forall (fun r => forall indent,
               Forall (startsWith indent) (translation node ctx indent r))
            rules) ->
  forall indent,
    Forall (startsWith indent) (thenTranslation node ctx indent rule).
Proof.
  intros Hnested indent. unfold thenTranslation, convertThen, convertThen_body.
  destruct (Rule_then rule) as [event mapping|rules|].
  - unfold convertThenRecordEvent.
    destruct (detectService node ctx); [|constructor].
    destruct (1 <? _)%nat; [constructor|].
    destruct (getTargetsOfType node NodeType_event true); [|constructor].
    destruct (negb _); [constructor|].
    destruct (convertMapping node ctx mapping rule indent); [|constructor].
    simpl. constructor; [apply startsWith_self | constructor].
  - apply (indented_execute node ctx rules rule (Hnested rules eq_refl)).
  - constructor.
Qed.

Lemma indented_of_then node ctx rule :
  (forall indent,
     Forall (startsWith indent) (thenTranslation node ctx indent rule)) ->
  forall indent,
    Forall (startsWith indent) (translation node ctx indent rule).
Proof.
  intros Hthen indent. unfold translation. rewrite convertRule_eq.
  unfold convertRule_body, convertAlwaysRule_body.
  fold (convertThen node ctx) (convertConditionRule node ctx).
  destruct (Rule_rule rule =? "always"); [apply Hthen|].
  destruct (Rule_rule rule =? "condition"); [|constructor].
  destruct (conditionOf rule) as [[ifCondition expr]|] eqn:Hcond.
  - rewrite (convertConditionRule_lines _ _ _ _ _ _ _ Hcond). cbv zeta.
    assert (Forall (startsWith indent)
              (thenTranslation node ctx (indent ++ "  ") rule)) as Hdeeper.
    { eapply Forall_impl; [|apply (Hthen (indent ++ "  "))].
      intros line. apply startsWith_deeper. }
    destruct (isCodyError _); cbn [snd app];
      (constructor; [apply startsWith_self|]); [exact Hdeeper|].
    apply Forall_app. split; [exact Hdeeper|].
    apply Forall_app. split.
    + destruct (Rule_stop rule); constructor;
        [apply startsWith_self | constructor].
    + constructor; [apply startsWith_self | constructor].
  - unfold convertConditionRule, convertConditionRule_body.
    rewrite Hcond. constructor.
Qed.

Lemma translation_indented node ctx rule :
  forall indent,
    Forall (startsWith indent) (translation node ctx indent rule).
Proof.
  induction rule as [kind i n event mapping stop
                    |kind i n rules stop IH
                    |kind i n stop] using Rule_nested_ind;
    apply indented_of_then; apply indented_then; simpl;
    intros rs Hrs; first [discriminate | injection Hrs as <-; exact IH].
Qed.

Lemma thenTranslation_indented node ctx rule indent :
  Forall (startsWith indent) (thenTranslation node ctx indent rule).
Proof.
  apply indented_then. intros rules _. apply Forall_forall.
  intros r _. apply translation_indented.
Qed.

(** X17: every line a rule adds starts with the indentation the rule is
    translated at, also the lines added before a diagnostic.  In a
    conditional, every line between the opening line and the closing
    brace (the lines of the action and the [return] of a stopping rule)
    starts with that indentation and two more spaces; when the action
    gives a diagnostic the closing brace is missing. *)
Theorem lines_are_indented node ctx rule :
  forall indent,
    Forall (startsWith indent) (translation node ctx indent rule)
    /\ (forall ifCondition expr,
          Rule_rule rule = "condition" ->
          conditionOf rule = Some (ifCondition, expr) ->
          exists body,
            Forall (startsWith (indent ++ "  ")) body
            /\ translation node ctx indent rule
               = if isCodyError (fst (convertRule node ctx rule [] indent))
                 then conditionHeader indent ifCondition expr :: body
                 else (conditionHeader indent ifCondition expr
                       :: body ++ [(indent ++ "}")%string])%list).
Proof.
  intros indent. split; [apply translation_indented|].
  intros ifCondition expr Hkind Hcond. unfold translation.
  rewrite (convertRule_condition _ _ _ _ _ Hkind),
          (convertConditionRule_lines _ _ _ _ _ _ _ Hcond).
  cbv zeta.
  pose proof (thenTranslation_indented node ctx rule (indent ++ "  "))
    as Hdeeper.
  destruct (isCodyError (fst (convertThen node ctx rule [] (indent ++ "  "))))
    eqn:Hthen;
    cbn [fst snd app]; rewrite ?Hthen; cbn [isCodyError].
  - exists (thenTranslation node ctx (indent ++ "  ") rule).
    split; [exact Hdeeper | reflexivity].
  - exists (thenTranslation node ctx (indent ++ "  ") rule
            ++ (if Rule_stop rule then [(indent ++ "  return;")%string]
                else []))%list.
    split.
    + apply Forall_app. split; [exact Hdeeper|].
      destruct (Rule_stop rule); constructor; [|constructor].
      exists "return;". now rewrite append_assoc.
    + now rewrite <- app_assoc.
Qed.

(** X18: the check of an event against the declared targets depends on
    which targets are declared, not on their order or on repetitions: two
    lists with the same members give the same answer. *)
Theorem declared_targets_as_a_set events1 events2 eventNames :
  (forall evt, In evt events1 <-> In evt events2) ->
  eventExistsIn events1 eventNames = eventExistsIn events2 eventNames.
Proof.
  intros Hsame.
  destruct (eventExistsIn events2 eventNames) eqn:E2.
  - apply eventExistsIn_spec. apply eventExistsIn_spec in E2 as (evt & Hin & H).
    exists evt. split; [now apply Hsame | exact H].
  - apply eventExistsIn_none. intros evt Hin.
    apply (proj1 (eventExistsIn_none _ _) E2). now apply Hsame.
Qed.

End Compiler.

(** ** The compiler on the sample graph *)

Abbreviation sampleCompile :=
  (convertRuleConfigToAggregateBehavior unit sampleNames sampleService
     sampleTargets sampleStringify sampleAggregate tt).

Abbreviation sampleConvertRule :=
  (convertRule unit sampleNames sampleService sampleTargets sampleStringify
     sampleAggregate tt).

Example sample_block :
  sampleCompile
    [MkRule "condition" (Some "quantity > 0") None
       (ThenRecordEvent "ItemAdded"
          (MappingProps [("sku", "command.sku"); ("count", "quantity")]))
       true]
    [mkVariable "quantity" "command.quantity"] defaultIndent
  = inl (join nl
           ["  const ctx: any = {};";
            "  ctx['quantity'] = command.quantity;";
            "";
            "  if ((await jexl.eval(" ++ quote ++ "quantity > 0" ++ quote
              ++ ", ctx))) {";
            "    yield itemAdded({" ++ nl
              ++ "      " ++ quote ++ "sku" ++ quote ++ ": await jexl.eval("
              ++ quote ++ "command.sku" ++ quote ++ ", ctx)," ++ nl
              ++ "      " ++ quote ++ "count" ++ quote ++ ": await jexl.eval("
              ++ quote ++ "quantity" ++ quote ++ ", ctx)," ++ nl
              ++ "    });";
            "    return;";
            "  }";
            ""]).
Proof. reflexivity. Qed.

(** *** Instances of the theorems *)

(** The first rule translates, the second has an unknown action: the
    diagnostic of the second is returned, whatever follows it. *)
Lemma compile_all_or_nothing_witness :
  let recorded :=
    MkRule "always" None None
      (ThenRecordEvent "CartEmptied" (MappingString "command")) false in
  let broken := MkRule "always" None None ThenOther false in
  let rules := [recorded; broken; recorded] in
  (forall p, In p [recorded] ->
     translates unit sampleNames sampleService sampleTargets sampleStringify
       sampleAggregate tt defaultIndent p)
  /\ sampleCompile rules [] defaultIndent
     = inr (unknownThen sampleStringify broken)
  /\ sampleCompile [recorded] [] defaultIndent
     = inl (join nl
              ["  const ctx: any = {};";
               "";
               "  yield cartEmptied(await jexl.eval(" ++ quote ++ "command"
                 ++ quote ++ ", ctx));";
               ""]).
Proof.
  intros recorded broken rules.
  assert (forall p, In p [recorded] ->
            translates unit sampleNames sampleService sampleTargets
              sampleStringify sampleAggregate tt defaultIndent p) as Hpre.
  { intros p [<-|[]]. reflexivity. }
  split; [exact Hpre|]. split.
  - apply (proj2 (proj2 (proj2 (proj2
             (compile_all_or_nothing unit sampleNames sampleService
                sampleTargets sampleStringify sampleAggregate tt
                rules [] defaultIndent))))
             [recorded] broken [recorded]
             (unknownThen sampleStringify broken) eq_refl Hpre eq_refl).
  - apply (proj1 (proj2 (proj2
             (compile_all_or_nothing unit sampleNames sampleService
                sampleTargets sampleStringify sampleAggregate tt
                [recorded] [] defaultIndent)))).
    split; reflexivity.
Defined.

Lemma condition_without_if_witness :
  let rule :=
    MkRule "condition" None None
      (ThenRecordEvent "CartEmptied" (MappingString "command")) true in
  Rule_rule rule = "condition"
  /\ Rule_if rule = None
  /\ Rule_if_not rule = None
  /\ sampleCompile [rule] [] defaultIndent
     = inr (noCondition sampleStringify sampleAggregate rule)
  /\ details (noCondition sampleStringify sampleAggregate rule)
     = "Looks like a mistake on your side. Please check the rules of aggregate: "
       ++ quote ++ "Cart" ++ quote.
Proof.
  intros rule. do 3 (split; [reflexivity|]).
  split; [|reflexivity].
  apply (proj1 (proj2 (condition_without_if unit sampleNames sampleService
                         sampleTargets sampleStringify sampleAggregate tt rule
                         eq_refl eq_refl eq_refl))
           [] [] [] defaultIndent).
  intros p [].
Defined.

Lemma unknown_rule_kind_witness :
  let rule := MkRule "validate" None None ThenOther false in
  Rule_rule rule <> "always"
  /\ Rule_rule rule <> "condition"
  /\ exists diagnostic,
       sampleConvertRule rule [] defaultIndent = (ReturnsError diagnostic, [])
       /\ type diagnostic = Error
       /\ cody diagnostic
          = "I don't know how to handle a rule of type " ++ quote
            ++ "validate" ++ quote ++ "."
       /\ listedKinds (details diagnostic) = ["always"; "condition"; "validate"].
Proof.
  intros rule.
  assert (Rule_rule rule <> "always") as Halways by discriminate.
  assert (Rule_rule rule <> "condition") as Hcondition by discriminate.
  split; [exact Halways|]. split; [exact Hcondition|].
  apply (unknown_rule_kind unit sampleNames sampleService sampleTargets
           sampleStringify sampleAggregate tt rule [] defaultIndent
           Halways Hcondition).
Defined.

(** C4 as stated fails: the details of the diagnostic list three kinds,
    [validate] after [always] and [condition], and the rule that gets the
    diagnostic here is itself of kind [validate]. *)
Lemma unknown_rule_kind_counterexample :
  let rule := MkRule "validate" None None ThenOther false in
  Rule_rule rule <> "always"
  /\ Rule_rule rule <> "condition"
  /\ sampleConvertRule rule [] defaultIndent
     = (ReturnsError (unknownRuleType rule), [])
  /\ listedKinds (details (unknownRuleType rule))
     = ["always"; "condition"; "validate"]
  /\ listedKinds (details (unknownRuleType rule)) <> ["always"; "condition"].
Proof.
  intros rule. repeat split; discriminate.
Qed.

(** The dotted event name sits in the second nested rule of the second
    top-level rule. *)
Lemma dot_in_event_name_witness :
  let good :=
    MkRule "always" None None
      (ThenRecordEvent "CartEmptied" (MappingString "command")) false in
  let rule :=
    MkRule "always" None None
      (ThenRecordEvent "Foo.Bar" (MappingString "command")) false in
  let outer := MkRule "condition" (Some "cart.open") None
                 (ThenExecuteRules [good; rule; good]) false in
  reachesThen rule
  /\ hasChar "." "Foo.Bar"
  /\ reachedWithin unit sampleNames sampleService sampleTargets
       sampleStringify sampleAggregate tt defaultIndent rule outer
  /\ sampleCompile [good; outer; good] [] defaultIndent
     = inr (dotInEventName sampleStringify sampleAggregate "Shop" rule).
Proof.
  intros good rule outer.
  assert (reachesThen rule) as Hreach by (left; reflexivity).
  assert (hasChar "." "Foo.Bar") as Hdot by (apply split_pieces; reflexivity).
  assert (forall p, In p [good] ->
            translates unit sampleNames sampleService sampleTargets
              sampleStringify sampleAggregate tt defaultIndent p) as Hgood.
  { intros p [<-|[]]. reflexivity. }
  assert (reachedWithin unit sampleNames sampleService sampleTargets
            sampleStringify sampleAggregate tt defaultIndent rule outer)
    as Hreached.
  { apply (reached_nested unit sampleNames sampleService sampleTargets
             sampleStringify sampleAggregate tt defaultIndent rule outer
             [good] rule [good]).
    - right. split; [reflexivity | left; discriminate].
    - reflexivity.
    - exact Hgood.
    - apply reached_itself. }
  assert (forall service,
            sampleService sampleAggregate tt = inl service ->
            dotInEventName sampleStringify sampleAggregate "Shop" rule
            = dotInEventName sampleStringify sampleAggregate service rule)
    as Hresolved by (intros service [= <-]; reflexivity).
  assert (forall e,
            sampleService sampleAggregate tt = inr e ->
            dotInEventName sampleStringify sampleAggregate "Shop" rule = e)
    as Hfailed by discriminate.
  split; [exact Hreach|]. split; [exact Hdot|]. split; [exact Hreached|].
  apply (proj2 (proj2
           (dot_in_event_name unit sampleNames sampleService sampleTargets
              sampleStringify sampleAggregate tt rule "Foo.Bar"
              (MappingString "command") Hreach eq_refl Hdot
              (dotInEventName sampleStringify sampleAggregate "Shop" rule)
              Hresolved Hfailed))
           outer [good] [good] [] defaultIndent Hgood Hreached).
Defined.

(** C5 as stated fails: the service of the node is resolved before the
    event name is looked at, so with a graph in which it does not resolve
    the diagnostic returned for the event name [Foo.Bar] is the
    resolver's, not the one about the dot. *)
Lemma dot_in_event_name_counterexample :
  let rule :=
    MkRule "always" None None
      (ThenRecordEvent "Foo.Bar" (MappingString "command")) false in
  hasChar "." "Foo.Bar"
  /\ convertRuleConfigToAggregateBehavior unit sampleNames failingService
       sampleTargets sampleStringify sampleAggregate tt [rule] [] defaultIndent
     = inr serviceUnknown
  /\ forall service,
       serviceUnknown
       <> dotInEventName sampleStringify sampleAggregate service rule.
Proof.
  intros rule. split; [apply split_pieces; reflexivity|].
  split; [reflexivity|].
  intros service H. apply (f_equal cody) in H. discriminate H.
Qed.

(** The event [ItemAdded] against the declared target [item added]: the raw
    names differ, the class names agree, and a block is returned. *)
Lemma event_not_among_targets_witness :
  let rule :=
    MkRule "always" None None
      (ThenRecordEvent "ItemAdded" (MappingString "command")) false in
  let events := [mkNode "item added" "event"; mkNode "CartEmptied" "event"] in
  reachesThen rule
  /\ ~ hasChar "." "ItemAdded"
  /\ (sampleCompile [rule] [] defaultIndent
      = inr (eventNotKnown sampleStringify sampleAggregate "ItemAdded" rule)
      <-> forall evt, In evt events ->
            className (sampleNames (getName evt))
            <> className (sampleNames "ItemAdded"))
  /\ exists block, sampleCompile [rule] [] defaultIndent = inl block.
Proof.
  intros rule events.
  assert (reachesThen rule) as Hreach by (left; reflexivity).
  assert (~ hasChar "." "ItemAdded") as Hdot
    by (apply split_one_piece; reflexivity).
  split; [exact Hreach|]. split; [exact Hdot|].
  pose proof (event_not_among_targets unit sampleNames sampleService
                sampleTargets sampleStringify sampleAggregate tt rule
                "ItemAdded" (MappingString "command") "Shop" events []
                defaultIndent Hreach eq_refl eq_refl Hdot eq_refl)
    as [Hiff Hsome].
  split; [exact Hiff|].
  apply Hsome. exists (mkNode "item added" "event").
  split; [left; reflexivity | reflexivity].
Defined.

(** C6 as stated fails: for the event name [Foo.Bar] and an aggregate
    without declared targets no target matches, yet the diagnostic is the
    one about the dot; the one about the unknown event is not given,
    because the name is rejected before the targets are looked up. *)
Lemma event_not_among_targets_counterexample :
  let rule :=
    MkRule "always" None None
      (ThenRecordEvent "Foo.Bar" (MappingString "command")) false in
  noTargets sampleAggregate NodeType_event true = inl []
  /\ (forall evt, In evt [] ->
        className (sampleNames (getName evt))
        <> className (sampleNames "Foo.Bar"))
  /\ convertRuleConfigToAggregateBehavior unit sampleNames sampleService
       noTargets sampleStringify sampleAggregate tt [rule] [] defaultIndent
     = inr (dotInEventName sampleStringify sampleAggregate "Shop" rule)
  /\ convertRuleConfigToAggregateBehavior unit sampleNames sampleService
       noTargets sampleStringify sampleAggregate tt [rule] [] defaultIndent
     <> inr (eventNotKnown sampleStringify sampleAggregate "Foo.Bar" rule).
Proof.
  intros rule. split; [reflexivity|]. split; [intros evt []|].
  split; [reflexivity|].
  intros H. injection H as H _. discriminate H.
Qed.

Lemma stop_emits_return_witness :
  let rule :=
    MkRule "condition" None (Some "cart.open")
      (ThenRecordEvent "CartEmptied" (MappingString "command")) true in
  Rule_rule rule = "condition"
  /\ exists ifCondition expr,
       conditionOf rule = Some (ifCondition, expr)
       /\ (Rule_stop rule = true ->
           snd (sampleConvertRule rule ["  // rules"] "  ")
           = ("  // rules"
              :: conditionHeader "  " ifCondition expr
              :: thenTranslation unit sampleNames sampleService sampleTargets
                   sampleStringify sampleAggregate tt "    " rule
              ++ ["    return;"; "  }"])%list).
Proof.
  intros rule. split; [reflexivity|].
  destruct (stop_emits_return unit sampleNames sampleService sampleTargets
              sampleStringify sampleAggregate tt rule ["  // rules"] "  "
              ReturnsTrue
              (snd (sampleConvertRule rule ["  // rules"] "  "))
              eq_refl eq_refl eq_refl)
    as (ifCondition & expr & Hcond & Hstop & _).
  exists ifCondition, expr. split; [exact Hcond | exact Hstop].
Defined.

Lemma nested_rules_in_order_witness :
  let R1 :=
    MkRule "always" None None
      (ThenRecordEvent "ItemAdded" (MappingProps [("sku", "command.sku")]))
      false in
  let R2 :=
    MkRule "condition" None (Some "cart.open")
      (ThenRecordEvent "CartEmptied" (MappingString "command")) true in
  let rule := MkRule "condition" (Some "quantity > 0") None
                (ThenExecuteRules [R1; R2]) false in
  isCodyError (fst (sampleConvertRule rule [] "")) = false
  /\ snd (sampleConvertRule rule [] "")
     = (conditionHeader "" "if (" "quantity > 0"
        :: translation unit sampleNames sampleService sampleTargets
             sampleStringify sampleAggregate tt "  " R1
        ++ translation unit sampleNames sampleService sampleTargets
             sampleStringify sampleAggregate tt "  " R2
        ++ ["}"])%list.
Proof.
  intros R1 R2 rule. split; [reflexivity|].
  apply (nested_rules_in_order unit sampleNames sampleService sampleTargets
           sampleStringify sampleAggregate tt "quantity > 0" None R1 R2 false
           [] "" (fst (sampleConvertRule rule [] ""))
           (snd (sampleConvertRule rule [] "")) eq_refl eq_refl).
Defined.

Lemma initializers_spliced_verbatim_witness :
  let rules :=
    [MkRule "always" None None
       (ThenRecordEvent "CartEmptied" (MappingString "command")) false] in
  let initialVariables := [mkVariable "now" "new Date()"] in
  rules <> []
  /\ exists block rest,
       sampleCompile rules initialVariables defaultIndent = inl block
       /\ block
          = join nl ("  const ctx: any = {};"
                     :: map (assignment "  ") initialVariables ++ rest)%list
       /\ assignment "  " (mkVariable "now" "new Date()")
          = "  ctx['now'] = new Date();".
Proof.
  intros rules initialVariables.
  assert (rules <> []) as Hrules by discriminate.
  split; [exact Hrules|].
  destruct (sampleCompile rules initialVariables defaultIndent)
    as [block|e] eqn:Hrun; [|discriminate Hrun].
  destruct (initializers_spliced_verbatim unit sampleNames sampleService
              sampleTargets sampleStringify sampleAggregate tt rules
              initialVariables defaultIndent block Hrules Hrun)
    as ((rest & Hblock) & _).
  exists block, rest. split; [reflexivity|]. split; [exact Hblock | reflexivity].
Defined.

(** *** Instances of the further properties *)

Lemma block_shape_witness :
  let rule :=
    MkRule "always" None None
      (ThenRecordEvent "CartEmptied" (MappingString "command")) false in
  [rule] <> []
  /\ exists block,
       sampleCompile [rule] [mkVariable "now" "new Date()"] "" = inl block
       /\ block
          = join nl
              ["const ctx: any = {};";
               "ctx['now'] = new Date();";
               "";
               "yield cartEmptied(await jexl.eval(" ++ quote ++ "command"
                 ++ quote ++ ", ctx));";
               ""].
Proof.
  intros rule.
  assert ([rule] <> []) as Hrules by discriminate.
  split; [exact Hrules|].
  destruct (sampleCompile [rule] [mkVariable "now" "new Date()"] "")
    as [block|e] eqn:Hrun; [|discriminate Hrun].
  exists block. split; [reflexivity|].
  apply (proj1 (block_shape unit sampleNames sampleService sampleTargets
                  sampleStringify sampleAggregate tt [rule]
                  [mkVariable "now" "new Date()"] "" block Hrules Hrun)).
Defined.

Lemma record_event_yields_witness :
  let rule :=
    MkRule "always" None None
      (ThenRecordEvent "ItemAdded" (MappingString "command")) false in
  ~ hasChar "." "ItemAdded"
  /\ exists payload,
       convertThenRecordEvent unit sampleNames sampleService sampleTargets
         sampleStringify sampleAggregate tt "ItemAdded"
         (MappingString "command") rule ["// before"] "  "
       = (ReturnsUndefined,
          ["// before";
           "  yield " ++ "itemAdded" ++ "(" ++ payload ++ ");"]).
Proof.
  intros rule.
  assert (~ hasChar "." "ItemAdded") as Hdot
    by (apply split_one_piece; reflexivity).
  split; [exact Hdot|].
  destruct (record_event_yields unit sampleNames sampleService sampleTargets
              sampleStringify sampleAggregate tt rule "ItemAdded"
              (MappingString "command") "Shop"
              [mkNode "item added" "event"; mkNode "CartEmptied" "event"]
              ["// before"] "  " eq_refl Hdot eq_refl
              (ex_intro _ (mkNode "item added" "event")
                 (conj (or_introl eq_refl) eq_refl)))
    as (payload & _ & Hrun).
  exists payload. exact Hrun.
Defined.

Lemma service_failure_propagates_witness :
  let unbound := MkRule "always" None None ThenOther false in
  let rule :=
    MkRule "condition" (Some "cart.open") None
      (ThenRecordEvent "CartEmptied" (MappingString "command")) false in
  let outer := MkRule "always" None None (ThenExecuteRules [rule]) false in
  reachesThen rule
  /\ convertRuleConfigToAggregateBehavior unit sampleNames failingService
       sampleTargets sampleStringify sampleAggregate tt [outer; unbound] []
       defaultIndent
     = inr serviceUnknown.
Proof.
  intros unbound rule outer.
  assert (reachesThen rule) as Hreach
    by (right; split; [reflexivity | left; discriminate]).
  split; [exact Hreach|].
  apply (proj2 (proj2
           (service_failure_propagates unit sampleNames failingService
              sampleTargets sampleStringify sampleAggregate tt rule
              "CartEmptied" (MappingString "command") serviceUnknown
              Hreach eq_refl eq_refl))
           outer [] [unbound] [] defaultIndent).
  - intros p [].
  - apply (reached_nested unit sampleNames failingService sampleTargets
             sampleStringify sampleAggregate tt defaultIndent rule outer
             [] rule []).
    + left. reflexivity.
    + reflexivity.
    + intros p [].
    + apply reached_itself.
Defined.

Lemma lookup_failure_propagates_witness :
  let empty := MkRule "always" None None (ThenExecuteRules []) false in
  let rule :=
    MkRule "always" None None
      (ThenRecordEvent "CartEmptied" (MappingString "command")) false in
  reachesThen rule
  /\ ~ hasChar "." "CartEmptied"
  /\ convertRuleConfigToAggregateBehavior unit sampleNames sampleService
       failingTargets sampleStringify sampleAggregate tt [empty; rule; rule]
       [] defaultIndent
     = inr lookupFailed.
Proof.
  intros empty rule.
  assert (reachesThen rule) as Hreach by (left; reflexivity).
  assert (~ hasChar "." "CartEmptied") as Hdot
    by (apply split_one_piece; reflexivity).
  split; [exact Hreach|]. split; [exact Hdot|].
  apply (proj2 (proj2
           (lookup_failure_propagates unit sampleNames sampleService
              failingTargets sampleStringify sampleAggregate tt rule
              "CartEmptied" (MappingString "command") "Shop" lookupFailed
              Hreach eq_refl eq_refl Hdot eq_refl))
           rule [empty] [rule] [] defaultIndent).
  - intros p [<-|[]]. reflexivity.
  - apply reached_itself.
Defined.

Lemma unknown_then_shape_witness :
  let good :=
    MkRule "always" None None
      (ThenRecordEvent "CartEmptied" (MappingString "command")) false in
  let rule := MkRule "always" None None ThenOther false in
  Rule_then rule = ThenOther
  /\ reachesThen rule
  /\ sampleCompile [good; rule; good] [] defaultIndent
     = inr (unknownThen sampleStringify rule).
Proof.
  intros good rule.
  assert (reachesThen rule) as Hreach by (left; reflexivity).
  split; [reflexivity|]. split; [exact Hreach|].
  apply (proj2 (proj2 (proj2 (proj2 (proj2
           (unknown_then_shape unit sampleNames sampleService sampleTargets
              sampleStringify sampleAggregate tt rule eq_refl)))) Hreach)
           rule [good] [good] [] defaultIndent).
  - intros p [<-|[]]. reflexivity.
  - apply reached_itself.
Defined.

Lemma always_ignores_condition_and_stop_witness :
  let action := ThenRecordEvent "CartEmptied" (MappingString "command") in
  let decorated := MkRule "always" (Some "cart.open") None action true in
  let plain := MkRule "always" None None action false in
  translation unit sampleNames sampleService sampleTargets sampleStringify
    sampleAggregate tt "  " decorated
  = translation unit sampleNames sampleService sampleTargets sampleStringify
      sampleAggregate tt "  " plain.
Proof.
  intros action decorated plain.
  apply (proj1 (always_ignores_condition_and_stop unit sampleNames
                  sampleService sampleTargets sampleStringify sampleAggregate
                  tt "  " decorated plain eq_refl eq_refl eq_refl)).
Defined.

Lemma always_execute_is_transparent_witness :
  let inner :=
    MkRule "always" None None
      (ThenRecordEvent "CartEmptied" (MappingString "command")) false in
  let rule := MkRule "always" None None (ThenExecuteRules [inner; inner])
                false in
  (forall r, In r [inner; inner] ->
     translates unit sampleNames sampleService sampleTargets sampleStringify
       sampleAggregate tt "  " r)
  /\ sampleConvertRule rule [] "  "
     = (ReturnsTrue,
        concat
          (map (translation unit sampleNames sampleService sampleTargets
                  sampleStringify sampleAggregate tt "  ")
             [inner; inner])).
Proof.
  intros inner rule.
  assert (forall r, In r [inner; inner] ->
            translates unit sampleNames sampleService sampleTargets
              sampleStringify sampleAggregate tt "  " r) as Hinner.
  { intros r [<-|[<-|[]]]; reflexivity. }
  split; [exact Hinner|].
  apply (always_execute_is_transparent unit sampleNames sampleService
           sampleTargets sampleStringify sampleAggregate tt rule
           [inner; inner] [] "  " eq_refl eq_refl Hinner).
Defined.

Lemma nested_rules_stop_at_first_failure_witness :
  let good :=
    MkRule "always" None None
      (ThenRecordEvent "CartEmptied" (MappingString "command")) false in
  let bad := MkRule "condition" (Some "cart.open") None ThenOther false in
  let outer := MkRule "always" None None (ThenExecuteRules [good; bad; good])
                 false in
  (forall p, In p [good] ->
     translates unit sampleNames sampleService sampleTargets sampleStringify
       sampleAggregate tt "" p)
  /\ convertThenExecuteRules unit sampleNames sampleService sampleTargets
       sampleStringify sampleAggregate tt [good; bad; good] outer [] ""
     = (ReturnsError (unknownThen sampleStringify bad),
        ["yield cartEmptied(await jexl.eval(" ++ quote ++ "command" ++ quote
           ++ ", ctx));";
         "if ((await jexl.eval(" ++ quote ++ "cart.open" ++ quote
           ++ ", ctx))) {"]).
Proof.
  intros good bad outer.
  assert (forall p, In p [good] ->
            translates unit sampleNames sampleService sampleTargets
              sampleStringify sampleAggregate tt "" p) as Hpre.
  { intros p [<-|[]]. reflexivity. }
  split; [exact Hpre|].
  apply (nested_rules_stop_at_first_failure unit sampleNames sampleService
           sampleTargets sampleStringify sampleAggregate tt [good] bad [good]
           outer (unknownThen sampleStringify bad) [] "" Hpre eq_refl).
Defined.

Lemma nested_diagnostic_bubbles_witness :
  let good :=
    MkRule "always" None None
      (ThenRecordEvent "CartEmptied" (MappingString "command")) false in
  let bad := MkRule "validate" None None ThenOther false in
  let middle := MkRule "always" None None (ThenExecuteRules [bad; good])
                  false in
  let outer := MkRule "condition" None (Some "cart.closed")
                 (ThenExecuteRules [good; middle; good]) true in
  reachedWithin unit sampleNames sampleService sampleTargets sampleStringify
    sampleAggregate tt defaultIndent bad outer
  /\ sampleCompile [good; outer; good] [] defaultIndent
     = inr (unknownRuleType bad).
Proof.
  intros good bad middle outer.
  assert (forall p, In p [good] ->
            translates unit sampleNames sampleService sampleTargets
              sampleStringify sampleAggregate tt defaultIndent p) as Hgood.
  { intros p [<-|[]]. reflexivity. }
  assert (reachedWithin unit sampleNames sampleService sampleTargets
            sampleStringify sampleAggregate tt defaultIndent bad outer)
    as Hreached.
  { apply (reached_nested unit sampleNames sampleService sampleTargets
             sampleStringify sampleAggregate tt defaultIndent bad outer
             [good] middle [good]).
    - right. split; [reflexivity | right; discriminate].
    - reflexivity.
    - exact Hgood.
    - apply (reached_nested unit sampleNames sampleService sampleTargets
               sampleStringify sampleAggregate tt defaultIndent bad middle
               [] bad [good]).
      + left. reflexivity.
      + reflexivity.
      + intros p [].
      + apply reached_itself. }
  split; [exact Hreached|].
  apply (proj2
           (nested_diagnostic_bubbles unit sampleNames sampleService
              sampleTargets sampleStringify sampleAggregate tt bad outer
              (unknownRuleType bad) [good] [good] [] defaultIndent
              Hgood Hreached eq_refl)).
Defined.

Lemma diagnostics_are_errors_witness :
  let rule :=
    MkRule "always" None None
      (ThenRecordEvent "Foo.Bar" (MappingString "command")) false in
  exists e,
    sampleCompile [rule] [] defaultIndent = inr e /\ type e = Error.
Proof.
  intros rule.
  destruct (sampleCompile [rule] [] defaultIndent) as [block|e] eqn:Hrun;
    [discriminate Hrun|].
  exists e. split; [reflexivity|].
  apply (diagnostics_are_errors unit sampleNames sampleService sampleTargets
           sampleStringify sampleAggregate tt [rule] [] defaultIndent e);
    [discriminate | discriminate | exact Hrun].
Defined.

Lemma lines_counted_witness :
  let inner :=
    MkRule "always" None None
      (ThenRecordEvent "CartEmptied"
         (MappingProps [("at", "now"); ("by", "command.user")])) false in
  let rule := MkRule "condition" (Some "cart.open") None
                (ThenExecuteRules [inner; inner]) true in
  translates unit sampleNames sampleService sampleTargets sampleStringify
    sampleAggregate tt "    " rule
  /\ List.length
       (translation unit sampleNames sampleService sampleTargets
          sampleStringify sampleAggregate tt "    " rule)
     = 5.
Proof.
  intros inner rule.
  assert (translates unit sampleNames sampleService sampleTargets
            sampleStringify sampleAggregate tt "    " rule) as Htranslates
    by reflexivity.
  split; [exact Htranslates|].
  apply (lines_counted unit sampleNames sampleService sampleTargets
           sampleStringify sampleAggregate tt rule "    " Htranslates).
Defined.

Lemma declared_targets_as_a_set_witness :
  let added := mkNode "item added" "event" in
  let emptied := mkNode "CartEmptied" "event" in
  (forall evt, In evt [added; emptied] <-> In evt [emptied; added; emptied])
  /\ eventExistsIn sampleNames [added; emptied] (sampleNames "ItemAdded")
     = eventExistsIn sampleNames [emptied; added; emptied]
         (sampleNames "ItemAdded").
Proof.
  intros added emptied.
  assert (forall evt, In evt [added; emptied]
                      <-> In evt [emptied; added; emptied]) as Hsame.
  { intros evt. simpl. tauto. }
  split; [exact Hsame|].
  apply (declared_targets_as_a_set sampleNames [added; emptied]
           [emptied; added; emptied] (sampleNames "ItemAdded") Hsame).
Defined.

Lemma lines_are_indented_witness :
  let rule :=
    MkRule "condition" (Some "cart.open") None
      (ThenRecordEvent "CartEmptied" (MappingString "command")) true in
  Rule_rule rule = "condition"
  /\ conditionOf rule = Some ("if (", "cart.open")
  /\ exists body,
       Forall (startsWith "    ") body
       /\ translation unit sampleNames sampleService sampleTargets
            sampleStringify sampleAggregate tt "  " rule
          = (conditionHeader "  " "if (" "cart.open" :: body ++ ["  }"])%list.
Proof.
  intros rule. split; [reflexivity|]. split; [reflexivity|].
  apply (proj2 (lines_are_indented unit sampleNames sampleService
                  sampleTargets sampleStringify sampleAggregate tt rule "  ")
           "if (" "cart.open" eq_refl eq_refl).
Defined.

(** The fields of this mapping are visited as declared: none of their
    names is an array index. *)
Lemma mapping_structure_witness :
  let props := [("sku", "command.sku"); ("count", "quantity")] in
  (forall field, In field props -> arrayIndex (fst field) = None)
  /\ forIn props = props
  /\ convertMapping unit sampleAggregate tt (MappingProps props)
       (MkRule "always" None None ThenOther false) ""
     = inl ("{" ++ nl ++ flatten (map (payloadEntry "") props) ++ "}").
Proof.
  intros props.
  assert (forall field, In field props -> arrayIndex (fst field) = None)
    as Hnamed.
  { intros field [<-|[<-|[]]]; reflexivity. }
  pose proof (proj1 (mapping_structure unit sampleAggregate tt
                       (MkRule "always" None None ThenOther false) "")
                props) as (Htext & _ & _ & _ & Hdeclared).
  split; [exact Hnamed|]. split; [exact (Hdeclared Hnamed)|].
  rewrite Htext, (Hdeclared Hnamed). reflexivity.
Defined.

(** C9 as stated fails: the fields declared in the order [b], [10], [2],
    [a] are emitted in the order [2], [10], [b], [a], because [for ... in]
    visits the names that are array indices first, by ascending value. *)
Lemma mapping_structure_counterexample :
  let declared := [("b", "x"); ("10", "y"); ("2", "z"); ("a", "w")] in
  let visited := [("2", "z"); ("10", "y"); ("b", "x"); ("a", "w")] in
  let rule := MkRule "always" None None ThenOther false in
  convertMapping unit sampleAggregate tt (MappingProps declared) rule ""
  = inl ("{" ++ nl ++ flatten (map (payloadEntry "") visited) ++ "}")
  /\ convertMapping unit sampleAggregate tt (MappingProps declared) rule ""
     <> inl ("{" ++ nl ++ flatten (map (payloadEntry "") declared) ++ "}")
  /\ map fst (forIn declared) <> map fst declared.
Proof.
  intros declared visited rule. split; [reflexivity|].
  split; [|discriminate]. intros H. injection H as H. discriminate H.
Qed.
